(** * libqca7k: the QCA7000 SPI driver, embedded in Rocq

    A shallow embedding of [libqca7k.c] / [libqca7k.h]: the command and
    register codec, the interrupt helpers, the frame transmitter and the
    resumable receive state machine, together with the properties of the
    natural-language specification that concern them.

    Integers are modelled as [Z] with the wrap-around of their C type written
    out; the SPI bus is a recording device; the driver's file-scope variables
    are fields of an explicit record threaded through every call. *)

From Stdlib Require Import ZArith List Bool Lia.
Import ListNotations.
Local Open Scope Z_scope.

(** ** The C implementation the driver is compiled for

    Three properties of the target decide what the code computes: the byte
    order of the host (the [#if __BYTE_ORDER__] branches), the width of [int]
    (integer promotion of [uint16_t] operands) and the width of [size_t]
    (the counters [i] and [_g_state_bytes_left]). *)
Record platform : Type := mk_platform {
  host_le   : bool;   (* __BYTE_ORDER__ == __ORDER_LITTLE_ENDIAN__ *)
  int_bits  : Z;      (* width of int *)
  size_bits : Z       (* width of size_t *)
}.

(** Cortex-M class microcontroller: little endian, 32-bit int and size_t. *)
Definition ilp32_le : platform := mk_platform true 32 32.
(** 64-bit Linux host: little endian, 32-bit int, 64-bit size_t. *)
Definition lp64_le : platform := mk_platform true 32 64.
(** A big-endian 32-bit target. *)
Definition ilp32_be : platform := mk_platform false 32 32.
(** 8-bit AVR: little endian, 16-bit int and size_t. *)
Definition avr : platform := mk_platform true 16 16.

(** ** Fixed-width arithmetic *)

Definition u8 (x : Z) : Z := x mod 256.
Definition u16 (x : Z) : Z := x mod 65536.
Definition lo8 (x : Z) : Z := Z.land x 255.
Definition hi8 (x : Z) : Z := Z.land (Z.shiftr x 8) 255.

(** ** Constants of libqca7k.h *)

Definition QCA7K_REG_BFR_SIZE       : Z := 0x0100.
Definition QCA7K_REG_WRBUF_SPC_AVA  : Z := 0x0200.
Definition QCA7K_REG_RDBUF_BYTE_AVA : Z := 0x0300.
Definition QCA7K_REG_SPI_CONFIG     : Z := 0x0400.
Definition QCA7K_REG_INTR_CAUSE     : Z := 0x0C00.
Definition QCA7K_REG_INTR_ENABLE    : Z := 0x0D00.
Definition QCA7K_REG_SIGNATURE      : Z := 0x1A00.

Definition QCA7K_SLAVE_RESET_BIT    : Z := Z.shiftl 1 6.

Definition QCA7K_INT_CPU_ON         : Z := Z.shiftl 1 6.
Definition QCA7K_INT_WRBUF_ERR      : Z := Z.shiftl 1 2.
Definition QCA7K_INT_RDBUF_ERR      : Z := Z.shiftl 1 1.
Definition QCA7K_INT_PKT_AVLBL      : Z := Z.shiftl 1 0.

Definition QCA7K_SIGNATURE          : Z := 0xAA55.

Definition QCA7K_FRAME_MAX          : Z := 1522.
Definition QCA7K_FRAME_MIN          : Z := 60.

Definition QCA7K_SOF                : Z := 0xAA.
Definition QCA7K_RESERVED           : Z := 0x00.
Definition QCA7K_EOF                : Z := 0x55.

(** The null pointer; any other address is a [Z] different from it. *)
Definition NULL : Z := 0.

(** [qca7k_state_t], in declaration order (so [QCA7K_OK] is 0). *)
Inductive qca7k_state_t : Type :=
  | QCA7K_OK
  | QCA7K_BAD_SIGNATURE
  | QCA7K_FRAME_OVERFLOW
  | QCA7K_WRITE_BUFFER_INSUFFICIENT
  | QCA7K_NULL_RECV_BUFFER
  | QCA7K_EMPTY_READ_BUFFER
  | QCA7K_INTERNAL_ERROR
  | QCA7K_READING_SOF
  | QCA7K_READING_FL
  | QCA7K_READING_RESERVED
  | QCA7K_READING_FRAME
  | QCA7K_READING_EOF.

Definition state_code (s : qca7k_state_t) : Z :=
  match s with
  | QCA7K_OK => 0
  | QCA7K_BAD_SIGNATURE => 1
  | QCA7K_FRAME_OVERFLOW => 2
  | QCA7K_WRITE_BUFFER_INSUFFICIENT => 3
  | QCA7K_NULL_RECV_BUFFER => 4
  | QCA7K_EMPTY_READ_BUFFER => 5
  | QCA7K_INTERNAL_ERROR => 6
  | QCA7K_READING_SOF => 7
  | QCA7K_READING_FL => 8
  | QCA7K_READING_RESERVED => 9
  | QCA7K_READING_FRAME => 10
  | QCA7K_READING_EOF => 11
  end.

Definition state_eqb (a b : qca7k_state_t) : bool := state_code a =? state_code b.

(** ** The bus and the driver's variables *)

(** What can be observed on the four SPI lines. *)
Inductive spi_event : Type :=
  | CS_low                (* qca7k_spi_begin *)
  | CS_high               (* qca7k_spi_end *)
  | MOSI (b : Z)          (* qca7k_spi_write: a byte from host to chip *)
  | MISO (b : Z).         (* qca7k_spi_read: a byte from chip to host *)

(** The file-scope variables [_g_state], [_g_recv_buf_origin],
    [_g_recv_buf_ptr], [_g_state_bytes_left], [_g_expected_byte], [_g_fl]. *)
Record recv_ctx : Type := mk_ctx {
  g_state            : qca7k_state_t;
  g_recv_buf_origin  : Z;
  g_recv_buf_ptr     : Z;
  g_state_bytes_left : Z;
  g_expected_byte    : Z;
  g_fl               : Z
}.

(** Their initialisers. *)
Definition ctx_init : recv_ctx :=
  mk_ctx QCA7K_READING_SOF NULL NULL 4 QCA7K_SOF 0.

(** Everything a driver call can read or change.
    - [chip]: the bytes the chip will shift out on the coming reads;
    - [trace]: all bus events so far, oldest first;
    - [ctx]: the receive context;
    - [recv_v]: the function-static [v] of [qca7k_recv];
    - [mem]: the byte stores made through [_g_recv_buf_ptr], newest first,
      each as (address, value). *)
Record world : Type := mk_world {
  chip   : list Z;
  trace  : list spi_event;
  ctx    : recv_ctx;
  recv_v : Z;
  mem    : list (Z * Z)
}.

Definition with_ctx (c : recv_ctx) (w : world) : world :=
  mk_world (chip w) (trace w) c (recv_v w) (mem w).

Definition with_v (v : Z) (w : world) : world :=
  mk_world (chip w) (trace w) (ctx w) v (mem w).

Definition with_chip (pending : list Z) (w : world) : world :=
  mk_world pending (trace w) (ctx w) (recv_v w) (mem w).

Definition emit (e : spi_event) (w : world) : world :=
  mk_world (chip w) (trace w ++ [e]) (ctx w) (recv_v w) (mem w).

(** The byte last stored at address [a], if any. *)
Fixpoint load (m : list (Z * Z)) (a : Z) : option Z :=
  match m with
  | [] => None
  | (a', v) :: m' => if a' =? a then Some v else load m' a
  end.

(** A power-on world: nothing on the bus yet, variables at their initialisers. *)
Definition boot (script : list Z) : world :=
  mk_world script [] ctx_init 0 [].

(** ** A state monad over the world *)

Definition M (A : Type) : Type := world -> A * world.

Definition ret {A : Type} (a : A) : M A := fun w => (a, w).

Definition bind {A B : Type} (m : M A) (k : A -> M B) : M B :=
  fun w => let (a, w') := m w in k a w'.

Notation "x <- c1 ;; c2" := (bind c1 (fun x => c2))
  (at level 61, c1 at next level, right associativity).
Notation "c1 ;; c2" := (bind c1 (fun _ => c2))
  (at level 61, right associativity).

(** [for (size_t i = start; ...; i++) body(i)] running exactly [n] times. *)
Fixpoint for_loop (n : nat) (i : Z) (body : Z -> M unit) : M unit :=
  match n with
  | O => ret tt
  | S n' => body i ;; for_loop n' (i + 1) body
  end.

(** ** The bus shim

    libqca7k.h only declares [qca7k_spi_begin], [qca7k_spi_end],
    [qca7k_spi_write] and [qca7k_spi_read] ("shims the user is expected to
    provide").  The four definitions below stand for a bus that records
    every event and answers reads from the chip's pending bytes. *)

(** Modelled from the spec: the chip side of [read_byte() -> u8].  The next
    pending byte is delivered; once nothing is pending the host samples an
    idle line, 0x00. *)
Definition chip_read (pending : list Z) : Z * list Z :=
  match pending with
  | [] => (0, [])
  | b :: rest => (u8 b, rest)
  end.

(** Modelled from the spec: [begin_transaction()], chip select asserted. *)
Definition qca7k_spi_begin : M unit := fun w => (tt, emit CS_low w).

(** Modelled from the spec: [end_transaction()], chip select released. *)
Definition qca7k_spi_end : M unit := fun w => (tt, emit CS_high w).

(** Modelled from the spec: [write_byte(u8)], one byte to the chip. *)
Definition qca7k_spi_write (b : Z) : M unit := fun w => (tt, emit (MOSI (u8 b)) w).

(** Modelled from the spec: [read_byte() -> u8], one byte from the chip. *)
Definition qca7k_spi_read : M Z := fun w =>
  let (b, rest) := chip_read (chip w) in
  (b, mk_world rest (trace w ++ [MISO b]) (ctx w) (recv_v w) (mem w)).

Section Driver.

Variable P : platform.

(** [size_t] arithmetic. *)
Definition usize (x : Z) : Z := x mod 2 ^ size_bits P.

(** [x << n] for a [uint16_t] operand [x]: where [int] is wider than 16 bits
    the operand is promoted to [int] and nothing is cut off (the driver
    shifts 16-bit values by at most 8 and single bits by at most 15, so the
    results fit an [int] of 32 bits); where [int] has 16 bits the operand is
    an [unsigned int] and the result is reduced modulo 2^16. *)
Definition shl_promoted (x n : Z) : Z :=
  if int_bits P <=? 16 then u16 (Z.shiftl x n) else Z.shiftl x n.

(** ** Register and command codec *)

(** [__u16]: repeats the byte to form a symmetric uint16_t. *)
Definition __u16 (v : Z) : Z :=
  u16 (Z.lor (shl_promoted (u8 v) 8) (u8 v)).

(** [qca7k_write_register]: the union holds [val] in host byte order; on a
    little-endian host its two bytes are swapped; then both are written. *)
Definition qca7k_write_register (val : Z) : M unit :=
  let val := u16 val in
  let bytes0 := if host_le P then lo8 val else hi8 val in
  let bytes1 := if host_le P then hi8 val else lo8 val in
  let '(bytes0, bytes1) :=
    if host_le P then (bytes1, bytes0) else (bytes0, bytes1) in
  qca7k_spi_write bytes0 ;;
  qca7k_spi_write bytes1.

(** [qca7k_read_register] *)
Definition qca7k_read_register : M Z :=
  res <- qca7k_spi_read ;;
  if host_le P then
    b <- qca7k_spi_read ;;
    ret (u16 (Z.lor res (shl_promoted b 8)))
  else
    let res := u16 (shl_promoted res 8) in
    b <- qca7k_spi_read ;;
    ret (u16 (Z.lor res b)).

Definition Z_of_bool (b : bool) : Z := if b then 1 else 0.

(** The command word [qca7k_write_command] hands to
    [qca7k_write_register]. *)
Definition command_word (rw inn : bool) (reg : Z) : Z :=
  let reg := u16 reg in
  let res := if inn then u16 (Z.shiftr (shl_promoted reg 2) 2) else 0x0000 in
  u16 (Z.lor res (Z.lor (shl_promoted (Z_of_bool rw) 15)
                        (shl_promoted (Z_of_bool inn) 14))).

(** [qca7k_write_command] *)
Definition qca7k_write_command (rw inn : bool) (reg : Z) : M unit :=
  qca7k_write_register (command_word rw inn reg).

(** ** Interrupts, signature, reset *)

Definition qca7k_interrupts_set (mask : Z) : M unit :=
  qca7k_spi_begin ;;
  qca7k_write_command false true QCA7K_REG_INTR_ENABLE ;;
  qca7k_write_register mask ;;
  qca7k_spi_end.

Definition qca7k_interrupts_get : M Z :=
  qca7k_spi_begin ;;
  qca7k_write_command true true QCA7K_REG_INTR_ENABLE ;;
  res <- qca7k_read_register ;;
  qca7k_spi_end ;;
  ret res.

Definition qca7k_interrupts_enable_all : M unit :=
  qca7k_interrupts_set
    (Z.lor (Z.lor (Z.lor QCA7K_INT_CPU_ON QCA7K_INT_WRBUF_ERR)
                  QCA7K_INT_RDBUF_ERR) QCA7K_INT_PKT_AVLBL).

Definition qca7k_interrupts_enable (mask : Z) : M unit :=
  cur <- qca7k_interrupts_get ;;
  qca7k_interrupts_set (Z.lor cur (u16 mask)).

Definition qca7k_interrupts_disable_all : M unit :=
  qca7k_interrupts_set 0x0000.

Definition qca7k_interrupts_disable (mask : Z) : M unit :=
  cur <- qca7k_interrupts_get ;;
  qca7k_interrupts_set (Z.land cur (Z.lnot (u16 mask))).

Definition qca7k_interrupt_reasons : M Z :=
  qca7k_interrupts_disable_all ;;
  qca7k_spi_begin ;;
  qca7k_write_command true true QCA7K_REG_INTR_CAUSE ;;
  reasons <- qca7k_read_register ;;
  qca7k_spi_end ;;
  (* Confirming by rewriting the same value *)
  qca7k_spi_begin ;;
  qca7k_write_command false true QCA7K_REG_INTR_CAUSE ;;
  qca7k_write_register reasons ;;
  qca7k_spi_end ;;
  ret reasons.

Definition qca7k_signature : M Z :=
  qca7k_spi_begin ;;
  qca7k_write_command true true QCA7K_REG_SIGNATURE ;;
  res <- qca7k_read_register ;;
  qca7k_spi_end ;;
  ret res.

Definition qca7k_startup : M qca7k_state_t :=
  qca7k_signature ;;
  sig <- qca7k_signature ;;
  if negb (sig =? QCA7K_SIGNATURE) then ret QCA7K_BAD_SIGNATURE
  else
    qca7k_interrupts_enable_all ;;
    ret QCA7K_OK.

Definition qca7k_reset : M unit :=
  qca7k_spi_begin ;;
  qca7k_write_command true true QCA7K_REG_SPI_CONFIG ;;
  config <- qca7k_read_register ;;
  qca7k_spi_end ;;
  qca7k_spi_begin ;;
  qca7k_write_command false true QCA7K_REG_SPI_CONFIG ;;
  qca7k_write_register (Z.lor config QCA7K_SLAVE_RESET_BIT) ;;
  qca7k_spi_end.

(** ** Frame transmitter *)

(** The local union [res] of [qca7k_send] after the optional swap: the frame
    length as two bytes, least significant first on either host. *)
Definition frame_length_bytes (size_to_write : Z) : Z * Z :=
  let val := u16 size_to_write in
  let bytes0 := if host_le P then lo8 val else hi8 val in
  let bytes1 := if host_le P then hi8 val else lo8 val in
  if host_le P then (bytes0, bytes1) else (bytes1, bytes0).

(** [qca7k_send].  [data] is what the pointer refers to, [size] the value of
    the [size_t] argument; every quantity computed from it stays below 2^16,
    so the [size_t] arithmetic is exact. *)
Definition qca7k_send (data : list Z) (size : Z) : M qca7k_state_t :=
  (* Straight up overflow *)
  if QCA7K_FRAME_MAX <? size then ret QCA7K_FRAME_OVERFLOW
  else
    (* Enlarge to minimum size if needed *)
    let size_to_write := if size <? QCA7K_FRAME_MIN then QCA7K_FRAME_MIN else size in
    (* Calculate the size needs and compare with available space *)
    let size_needed := 4 + 2 + 2 + size_to_write + 2 in
    qca7k_spi_begin ;;
    qca7k_write_command true true QCA7K_REG_WRBUF_SPC_AVA ;;
    write_available <- qca7k_read_register ;;
    qca7k_spi_end ;;
    if write_available <? size_needed then ret QCA7K_WRITE_BUFFER_INSUFFICIENT
    else
      (* Inform the size of the external write operation *)
      qca7k_spi_begin ;;
      qca7k_write_command false true QCA7K_REG_BFR_SIZE ;;
      qca7k_write_register (u16 size_needed) ;;
      qca7k_spi_end ;;
      (* Write actual data as external write *)
      qca7k_spi_begin ;;
      qca7k_write_command false false 0x0000 ;;
      (* Start of Frame (double) *)
      qca7k_write_register (__u16 QCA7K_SOF) ;;
      qca7k_write_register (__u16 QCA7K_SOF) ;;
      (* Frame length: computed into the union, which no later statement reads *)
      let res := frame_length_bytes size_to_write in
      (* Reserved *)
      qca7k_write_register (__u16 QCA7K_RESERVED) ;;
      (* Frame data *)
      for_loop (Z.to_nat size_to_write) 0
        (fun i => qca7k_spi_write (if i <? size then nth (Z.to_nat i) data 0 else 0x00)) ;;
      (* End of frame *)
      qca7k_write_register (__u16 QCA7K_EOF) ;;
      qca7k_spi_end ;;
      ret QCA7K_OK.

(** ** Frame receiver *)

Definition get_ctx : M recv_ctx := fun w => (ctx w, w).
Definition put_ctx (c : recv_ctx) : M unit := fun w => (tt, with_ctx c w).
Definition get_v : M Z := fun w => (recv_v w, w).
Definition put_v (v : Z) : M unit := fun w => (tt, with_v v w).

(** [*p = v] *)
Definition store (p v : Z) : M unit := fun w =>
  (tt, mk_world (chip w) (trace w) (ctx w) (recv_v w) ((p, v) :: mem w)).

Definition set_state (s : qca7k_state_t) (c : recv_ctx) : recv_ctx :=
  mk_ctx s (g_recv_buf_origin c) (g_recv_buf_ptr c) (g_state_bytes_left c)
         (g_expected_byte c) (g_fl c).
Definition set_ptr (p : Z) (c : recv_ctx) : recv_ctx :=
  mk_ctx (g_state c) (g_recv_buf_origin c) p (g_state_bytes_left c)
         (g_expected_byte c) (g_fl c).
Definition set_bytes_left (n : Z) (c : recv_ctx) : recv_ctx :=
  mk_ctx (g_state c) (g_recv_buf_origin c) (g_recv_buf_ptr c) n
         (g_expected_byte c) (g_fl c).
Definition set_expected (b : Z) (c : recv_ctx) : recv_ctx :=
  mk_ctx (g_state c) (g_recv_buf_origin c) (g_recv_buf_ptr c)
         (g_state_bytes_left c) b (g_fl c).
Definition set_fl (x : Z) (c : recv_ctx) : recv_ctx :=
  mk_ctx (g_state c) (g_recv_buf_origin c) (g_recv_buf_ptr c)
         (g_state_bytes_left c) (g_expected_byte c) x.

(** The context [qca7k_reset_state_machine data] leaves behind. *)
Definition fresh_ctx (data : Z) : recv_ctx :=
  mk_ctx QCA7K_READING_SOF data data 4 QCA7K_SOF 0.

(** [qca7k_reset_state_machine]: back to "waiting for SOF". *)
Definition qca7k_reset_state_machine (data : Z) : M unit :=
  put_ctx (fresh_ctx data).

(** How one pass through the body of the scan loop ends: at the closing
    brace or a [continue] (with the values of [i] and [retry_loop] at that
    point), or at [goto done]. *)
Inductive flow : Type :=
  | Next (i : Z) (retry_loop : bool)
  | Goto_done.

(** The second [switch]: the current stage has all its bytes. *)
Definition end_of_stage (i : Z) (retry_loop : bool) : M flow :=
  c <- get_ctx ;;
  match g_state c with
  | QCA7K_READING_SOF =>
      put_ctx (set_bytes_left 2 (set_state QCA7K_READING_FL c)) ;;
      ret (Next i retry_loop)
  | QCA7K_READING_FL =>
      put_ctx (set_expected QCA7K_RESERVED
                 (set_bytes_left 2 (set_state QCA7K_READING_RESERVED c))) ;;
      ret (Next i retry_loop)
  | QCA7K_READING_RESERVED =>
      put_ctx (set_bytes_left (usize (g_fl c))
                 (set_ptr (g_recv_buf_origin c)
                    (set_state QCA7K_READING_FRAME c))) ;;
      ret (Next i retry_loop)
  | QCA7K_READING_FRAME =>
      put_ctx (set_expected QCA7K_EOF
                 (set_bytes_left 2 (set_state QCA7K_READING_EOF c))) ;;
      ret (Next i retry_loop)
  | QCA7K_READING_EOF =>
      qca7k_reset_state_machine (g_recv_buf_origin c) ;;
      c <- get_ctx ;;
      put_ctx (set_state QCA7K_OK c) ;;
      ret Goto_done
  | _ => ret (Next i retry_loop)
  end.

(** "If we made this far, the byte was accepted": count it and check
    whether the stage is complete. *)
Definition accept (i : Z) (retry_loop : bool) : M flow :=
  c <- get_ctx ;;
  put_ctx (set_bytes_left (usize (g_state_bytes_left c - 1)) c) ;;
  c <- get_ctx ;;
  if g_state_bytes_left c =? 0 then end_of_stage i retry_loop
  else ret (Next i retry_loop).

(** The body of the scan loop of [qca7k_recv]. *)
Definition loop_body (i : Z) (retry_loop : bool) : M flow :=
  (* Read a byte if we're not in retry mode *)
  retry_loop <-
    (if negb retry_loop
     then (b <- qca7k_spi_read ;; put_v b ;; ret retry_loop)
     else ret false) ;;
  v <- get_v ;;
  c <- get_ctx ;;
  match g_state c with
  | QCA7K_READING_SOF | QCA7K_READING_RESERVED | QCA7K_READING_EOF =>
      if negb (g_expected_byte c =? v) then
        qca7k_reset_state_machine (g_recv_buf_origin c) ;;
        c <- get_ctx ;;
        (* Re-trying the same character if it wasn't SOF mode *)
        if negb (state_eqb (g_state c) QCA7K_READING_SOF)
        then ret (Next (usize (i - 1)) true)
        else ret (Next i retry_loop)
      else accept i retry_loop
  | QCA7K_READING_FL =>
      put_ctx (set_fl (u16 (shl_promoted (g_fl c) 8)) c) ;;
      c <- get_ctx ;;
      put_ctx (set_fl (u16 (Z.lor (g_fl c) v)) c) ;;
      accept i retry_loop
  | QCA7K_READING_FRAME =>
      store (g_recv_buf_ptr c) v ;;
      put_ctx (set_ptr (g_recv_buf_ptr c + 1) c) ;;
      accept i retry_loop
  | _ =>
      qca7k_reset_state_machine NULL ;;
      c <- get_ctx ;;
      put_ctx (set_state QCA7K_INTERNAL_ERROR c) ;;
      ret Goto_done
  end.

(** [for (size_t i = 0; i < bytes_available; i++) { body }], entered with
    the given [i] and [retry_loop].  [fuel] bounds the number of passes;
    [None] means it ran out. *)
Fixpoint scan (fuel : nat) (bytes_available i : Z) (retry_loop : bool)
              (w : world) : option world :=
  match fuel with
  | O => None
  | S fuel' =>
      if i <? bytes_available then
        match loop_body i retry_loop w with
        | (Next i' retry_loop', w') =>
            scan fuel' bytes_available (usize (i' + 1)) retry_loop' w'
        | (Goto_done, w') => Some w'
        end
      else Some w
  end.

(** The test at the top of [qca7k_recv] that decides whether the context is
    reset before anything is read. *)
Definition needs_reset (data : Z) (c : recv_ctx) : bool :=
  (g_recv_buf_origin c =? NULL)
  || negb (data =? g_recv_buf_origin c)
  || state_eqb (g_state c) QCA7K_OK
  || state_eqb (g_state c) QCA7K_INTERNAL_ERROR.

(** Passes granted to the scan loop: a pass either reads a byte or follows
    a pass that did. *)
Definition scan_fuel (bytes_available : Z) : nat :=
  S (2 * Z.to_nat bytes_available).

(** [qca7k_recv] from "Check how many bytes are available for reading" to
    its [return]: everything after the two tests on entry. *)
Definition recv_available (w : world) : option (qca7k_state_t * world) :=
  (* Check how many bytes are available for reading *)
  let '(bytes_available, w) :=
    (qca7k_spi_begin ;;
     qca7k_write_command true true QCA7K_REG_RDBUF_BYTE_AVA ;;
     bytes_available <- qca7k_read_register ;;
     qca7k_spi_end ;;
     ret bytes_available) w in
  if bytes_available =? 0 then Some (QCA7K_EMPTY_READ_BUFFER, w)
  else
    (* Scan the read buffer *)
    let '(_, w) :=
      (qca7k_spi_begin ;;
       qca7k_write_command true false 0x0000) w in
    match scan (scan_fuel bytes_available) bytes_available 0 false w with
    | None => None
    | Some w =>
        let '(_, w) := qca7k_spi_end w in
        Some (g_state (ctx w), w)
    end.

(** [qca7k_recv] *)
Definition qca7k_recv (data : Z) (w : world) : option (qca7k_state_t * world) :=
  (* Check for NULL not to confuse our logic *)
  if data =? NULL then Some (QCA7K_NULL_RECV_BUFFER, w)
  else
    (* Fix the state if the last one was the end of the frame or internal error
       Check that buffer pointer is the same or uninialized *)
    let '(_, w) :=
      (c <- get_ctx ;;
       if needs_reset data c then qca7k_reset_state_machine data else ret tt) w in
    recv_available w.

End Driver.

(** ** Vocabulary of the statements *)

(** The world after more bus traffic: [pending] is what the chip still has
    to deliver and [events] what was added to the trace. *)
Definition after_bus (pending : list Z) (events : list spi_event) (w : world) : world :=
  mk_world pending (trace w ++ events) (ctx w) (recv_v w) (mem w).

(** The two bytes the next two reads deliver, and what is pending then. *)
Definition chip_read2 (pending : list Z) : Z * Z * list Z :=
  let (b0, r0) := chip_read pending in
  let (b1, r1) := chip_read r0 in
  (b0, b1, r1).

(** The 16-bit value a host of the given byte order assembles from two bytes
    read in this order. *)
Definition reg_value (P : platform) (b0 b1 : Z) : Z :=
  if host_le P then b0 + 256 * b1 else 256 * b0 + b1.

(** The two bytes the chip has to deliver, in order, for the host to read
    [val]. *)
Definition reg_bytes (P : platform) (val : Z) : list Z :=
  if host_le P then [lo8 val; hi8 val] else [hi8 val; lo8 val].

(** Bus picture of reading internal register [reg]: command word with
    bits 15 and 14 set, then two bytes from the chip. *)
Definition reg_read_txn (reg b0 b1 : Z) : list spi_event :=
  [CS_low; MOSI (hi8 (0xC000 + reg)); MOSI (lo8 (0xC000 + reg));
   MISO b0; MISO b1; CS_high].

(** Bus picture of writing [val] to internal register [reg]: command word
    with bit 14 set, then the value, high byte first. *)
Definition reg_write_txn (reg val : Z) : list spi_event :=
  [CS_low; MOSI (hi8 (0x4000 + reg)); MOSI (lo8 (0x4000 + reg));
   MOSI (hi8 val); MOSI (lo8 val); CS_high].

(** The bytes the host sent, in order. *)
Fixpoint mosi_bytes (t : list spi_event) : list Z :=
  match t with
  | [] => []
  | MOSI b :: t' => b :: mosi_bytes t'
  | _ :: t' => mosi_bytes t'
  end.

(** The events since chip select was last asserted. *)
Fixpoint last_txn_from (cur : list spi_event) (t : list spi_event) : list spi_event :=
  match t with
  | [] => cur
  | CS_low :: t' => last_txn_from [] t'
  | e :: t' => last_txn_from (cur ++ [e]) t'
  end.

(** What the chip received in the last transaction after the two bytes of
    the command word: for [qca7k_send], the frame as put on the wire. *)
Definition streamed_bytes (t : list spi_event) : list Z :=
  skipn 2 (mosi_bytes (last_txn_from [] t)).

(** The payload [qca7k_send] is asked to send, padded with zeros to
    [QCA7K_FRAME_MIN]. *)
Definition padded (data : list Z) : list Z :=
  data ++ repeat 0 (Z.to_nat QCA7K_FRAME_MIN - length data).

(** The wire envelope of the specification for a payload already padded:
    SOF, little-endian length, reserved, payload, EOF. *)
Definition spec_envelope (payload : list Z) : list Z :=
  [0xAA; 0xAA; 0xAA; 0xAA]
  ++ [lo8 (Z.of_nat (length payload)); hi8 (Z.of_nat (length payload))]
  ++ [0x00; 0x00] ++ payload ++ [0x55; 0x55].

(** [i], [i + 1], ... : the [n] values the counter of a [for] loop takes. *)
Fixpoint zrange (i : Z) (n : nat) : list Z :=
  match n with
  | O => []
  | S n' => i :: zrange (i + 1) n'
  end.

(** The payload bytes [qca7k_send] puts on the wire for [data] and [size]:
    one per pass of its frame-data loop. *)
Definition sent_payload (data : list Z) (size : Z) : list Z :=
  map (fun i => u8 (if i <? size then nth (Z.to_nat i) data 0 else 0x00))
      (zrange 0 (Z.to_nat (Z.max size QCA7K_FRAME_MIN))).

(** Total number of bytes the specification counts for a frame on the wire. *)
Definition wire_size (size : Z) : Z := 4 + 2 + 2 + Z.max size QCA7K_FRAME_MIN + 2.

(** Start of a frame announcing a length of zero: SOF, length 00 00,
    reserved 00 00. *)
Definition zero_length_header : list Z :=
  [0xAA; 0xAA; 0xAA; 0xAA; 0x00; 0x00; 0x00; 0x00].

(** Bus picture of [qca7k_recv] asking for the number of readable bytes and
    being told [n]. *)
Definition available_txn (P : platform) (n : Z) : list spi_event :=
  [CS_low; MOSI 0xC3; MOSI 0x00] ++ map MISO (reg_bytes P n) ++ [CS_high].

(** Bus picture of the external read in which the chip delivers [bytes]. *)
Definition external_read_txn (bytes : list Z) : list spi_event :=
  [CS_low; MOSI 0x80; MOSI 0x00] ++ map MISO bytes ++ [CS_high].

(** A ten-byte payload. *)
Definition ten_bytes : list Z := [1; 2; 3; 4; 5; 6; 7; 8; 9; 10].

(** What a call of [qca7k_recv] leaves behind, without the bus trace:
    returned state, context, bytes the chip still holds, stores made. *)
Definition outcome (r : option (qca7k_state_t * world))
  : option (qca7k_state_t * recv_ctx * list Z * list (Z * Z)) :=
  match r with
  | Some (s, w) => Some (s, ctx w, chip w, mem w)
  | None => None
  end.

(** One complete frame on the wire, as [qca7k_recv] parses it: SOF, the
    length with its more significant byte first, reserved, payload, EOF. *)
Definition frame_for_recv (payload : list Z) : list Z :=
  [0xAA; 0xAA; 0xAA; 0xAA]
  ++ [hi8 (Z.of_nat (length payload)); lo8 (Z.of_nat (length payload))]
  ++ [0x00; 0x00] ++ payload ++ [0x55; 0x55].

(** The bytes of a frame that announces 1523 payload bytes, one more than
    [QCA7K_FRAME_MAX], up to and including its payload. *)
Definition oversized_frame : list Z :=
  [0xAA; 0xAA; 0xAA; 0xAA; 0x05; 0xF3; 0x00; 0x00] ++ repeat 0x11 1523.

(** Whether a pass of the scan loop ended at [goto done]. *)
Definition is_done (f : flow) : bool :=
  match f with
  | Goto_done => true
  | Next _ _ => false
  end.

(** What one pass of the scan loop does to the receive context and to
    memory once the byte [b] is in [v]: the loop body entered in retry mode,
    in which it reads nothing from the bus.  The flag tells whether the pass
    left the loop. *)
Definition pass_on (P : platform) (b : Z) (c : recv_ctx) (m : list (Z * Z))
  : bool * recv_ctx * list (Z * Z) :=
  let '(f, w') := loop_body P 0 true (mk_world [] [] c b m) in
  (is_done f, ctx w', mem w').

(** The passes of the scan loop over the bytes it reads, until one leaves
    the loop: whether one did, how many bytes were used, and the context and
    memory at the end. *)
Fixpoint feed (P : platform) (bytes : list Z) (c : recv_ctx) (m : list (Z * Z))
  : bool * nat * recv_ctx * list (Z * Z) :=
  match bytes with
  | [] => (false, O, c, m)
  | b :: bs =>
      let '(d, c', m') := pass_on P b c m in
      if d then (true, 1%nat, c', m')
      else let '(d', k, c'', m'') := feed P bs c' m' in (d', S k, c'', m'')
  end.

(** The bytes the next [n] reads deliver. *)
Fixpoint deliver (n : nat) (pending : list Z) : list Z :=
  match n with
  | O => []
  | S n' => let (b, rest) := chip_read pending in b :: deliver n' rest
  end.

(** The context the scan starts from: the one found, or a fresh one when
    the entry test of [qca7k_recv] asks for a reset. *)
Definition entry_ctx (data : Z) (c : recv_ctx) : recv_ctx :=
  if needs_reset data c then fresh_ctx data else c.

(** Memory after the bytes were stored at [p], [p + 1], ... in this order. *)
Fixpoint stored (p : Z) (bytes : list Z) (m : list (Z * Z)) : list (Z * Z) :=
  match bytes with
  | [] => m
  | b :: bs => stored (p + 1) bs ((p, b) :: m)
  end.

(** The five states in which [qca7k_recv] is in the middle of a frame. *)
Definition is_reading (s : qca7k_state_t) : bool :=
  match s with
  | QCA7K_READING_SOF | QCA7K_READING_FL | QCA7K_READING_RESERVED
  | QCA7K_READING_FRAME | QCA7K_READING_EOF => true
  | _ => false
  end.

(** The values [_g_state] is ever given: its initialiser, the five reading
    states and the two terminal ones. *)
Definition is_parser_state (s : qca7k_state_t) : bool :=
  is_reading s || state_eqb s QCA7K_OK || state_eqb s QCA7K_INTERNAL_ERROR.

(** A byte value. *)
Definition is_byte (b : Z) : Prop := 0 <= b < 256.

(** ** Arithmetic of the codec *)

Lemma lo8_mod (x : Z) : lo8 x = x mod 256.
Proof. unfold lo8. change 255 with (Z.ones 8). now rewrite Z.land_ones. Qed.

Lemma lo8_range (x : Z) : 0 <= lo8 x < 256.
Proof. rewrite lo8_mod. apply Z.mod_pos_bound. lia. Qed.

Lemma hi8_range (x : Z) : 0 <= hi8 x < 256.
Proof. unfold hi8. apply (lo8_range (Z.shiftr x 8)). Qed.

Lemma u8_small (x : Z) : 0 <= x < 256 -> u8 x = x.
Proof. intros H. unfold u8. now apply Z.mod_small. Qed.

Lemma u8_range (x : Z) : 0 <= u8 x < 256.
Proof. unfold u8. apply Z.mod_pos_bound. lia. Qed.

Lemma u16_range (x : Z) : 0 <= u16 x < 65536.
Proof. unfold u16. apply Z.mod_pos_bound. lia. Qed.

Lemma u16_small (x : Z) : 0 <= x < 65536 -> u16 x = x.
Proof. intros H. unfold u16. now apply Z.mod_small. Qed.

Lemma u16_idem (x : Z) : u16 (u16 x) = u16 x.
Proof. apply u16_small, u16_range. Qed.

Lemma after_bus_after_bus (p1 p2 : list Z) (e1 e2 : list spi_event) (w : world) :
  after_bus p2 e2 (after_bus p1 e1 w) = after_bus p2 (e1 ++ e2) w.
Proof. unfold after_bus. simpl. now rewrite app_assoc. Qed.

Lemma emit_after_bus (e : spi_event) (w : world) :
  emit e w = after_bus (chip w) [e] w.
Proof. reflexivity. Qed.

(** Or-ing a value below 2^n with one shifted left by n adds them. *)
Lemma land_low_shiftl (a b n : Z) :
  0 <= n -> 0 <= a < 2 ^ n -> Z.land a (Z.shiftl b n) = 0.
Proof.
  intros Hn Ha. apply Z.bits_inj'. intros m Hm.
  rewrite Z.land_spec, Z.bits_0.
  destruct (Z.ltb_spec m n).
  - rewrite Z.shiftl_spec_low by lia. apply andb_false_r.
  - rewrite <- (Z.mod_small a (2 ^ n)) by lia.
    rewrite Z.mod_pow2_bits_high by lia. reflexivity.
Qed.

Lemma lor_low_shiftl (a b n : Z) :
  0 <= n -> 0 <= a < 2 ^ n -> Z.lor a (Z.shiftl b n) = a + b * 2 ^ n.
Proof.
  intros Hn Ha.
  rewrite <- (Z.shiftl_mul_pow2 b n) by lia.
  rewrite <- Z.lxor_lor by now apply land_low_shiftl.
  symmetry. apply Z.add_nocarry_lxor. now apply land_low_shiftl.
Qed.

Lemma chip_read_range (pending : list Z) : 0 <= fst (chip_read pending) < 256.
Proof. destruct pending; simpl; [lia | apply u8_range]. Qed.

Section Codec.

Variable P : platform.

Lemma shl8_byte (b : Z) : 0 <= b < 256 -> shl_promoted P b 8 = Z.shiftl b 8.
Proof.
  intros Hb. unfold shl_promoted.
  destruct (int_bits P <=? 16); [|reflexivity].
  apply u16_small. rewrite Z.shiftl_mul_pow2 by lia. change (2 ^ 8) with 256. lia.
Qed.

Lemma shiftl8_range (b : Z) : 0 <= b < 256 -> 0 <= Z.shiftl b 8 < 65536.
Proof. intros Hb. rewrite Z.shiftl_mul_pow2 by lia. change (2 ^ 8) with 256. lia. Qed.

(** [qca7k_write_register] always sends the high byte first. *)
Lemma write_register_spec (val : Z) (w : world) :
  qca7k_write_register P val w =
  (tt, after_bus (chip w) [MOSI (hi8 (u16 val)); MOSI (lo8 (u16 val))] w).
Proof.
  unfold qca7k_write_register, bind, qca7k_spi_write.
  destruct (host_le P); simpl;
    rewrite !emit_after_bus, after_bus_after_bus; simpl;
    rewrite (u8_small (hi8 _)) by apply hi8_range;
    rewrite (u8_small (lo8 _)) by apply lo8_range; reflexivity.
Qed.

(** [qca7k_read_register] takes two bytes from the chip and assembles them
    in host order. *)
Lemma read_register_spec (w : world) :
  qca7k_read_register P w =
  (let '(b0, b1, rest) := chip_read2 (chip w) in
   (reg_value P b0 b1, after_bus rest [MISO b0; MISO b1] w)).
Proof.
  unfold qca7k_read_register, bind, qca7k_spi_read, chip_read2, reg_value, ret.
  pose proof (chip_read_range (chip w)) as H0.
  destruct (chip_read (chip w)) as [b0 r0]. simpl in H0.
  pose proof (chip_read_range r0) as H1.
  destruct (host_le P); cbv beta iota zeta;
    unfold after_bus; cbn [chip trace ctx recv_v mem];
    destruct (chip_read r0) as [b1 r1]; cbn [fst] in H1;
    rewrite <- app_assoc; cbn [app];
    rewrite !shl8_byte by lia.
  - rewrite lor_low_shiftl by (simpl; lia).
    change (2 ^ 8) with 256. rewrite u16_small by lia.
    f_equal. lia.
  - rewrite (u16_small (Z.shiftl b0 8)) by now apply shiftl8_range.
    rewrite Z.lor_comm, lor_low_shiftl by (simpl; lia).
    change (2 ^ 8) with 256. rewrite u16_small by lia.
    f_equal. lia.
Qed.

(** The command words the driver itself issues. *)
Lemma command_word_read_internal (reg : Z) :
  In reg [QCA7K_REG_WRBUF_SPC_AVA; QCA7K_REG_RDBUF_BYTE_AVA; QCA7K_REG_SPI_CONFIG;
          QCA7K_REG_INTR_CAUSE; QCA7K_REG_INTR_ENABLE; QCA7K_REG_SIGNATURE] ->
  command_word P true true reg = 0xC000 + reg.
Proof.
  unfold command_word, shl_promoted.
  intros H; simpl in H; destruct (int_bits P <=? 16);
    repeat (destruct H as [<-|H]; [reflexivity|]); contradiction.
Qed.

Lemma command_word_write_internal (reg : Z) :
  In reg [QCA7K_REG_BFR_SIZE; QCA7K_REG_SPI_CONFIG;
          QCA7K_REG_INTR_CAUSE; QCA7K_REG_INTR_ENABLE] ->
  command_word P false true reg = 0x4000 + reg.
Proof.
  unfold command_word, shl_promoted.
  intros H; simpl in H; destruct (int_bits P <=? 16);
    repeat (destruct H as [<-|H]; [reflexivity|]); contradiction.
Qed.

Lemma command_word_external (rw : bool) (reg : Z) :
  command_word P rw false reg = if rw then 0x8000 else 0x0000.
Proof.
  unfold command_word, shl_promoted.
  destruct (int_bits P <=? 16), rw; reflexivity.
Qed.

Lemma __u16_spec (v : Z) : 0 <= v < 256 -> __u16 P v = v * 257.
Proof.
  intros Hv. unfold __u16. rewrite (u8_small v), shl8_byte by lia.
  rewrite Z.lor_comm, lor_low_shiftl by (simpl; lia).
  change (2 ^ 8) with 256. rewrite u16_small by lia. lia.
Qed.

Lemma command_flags (rw inn : bool) :
  Z.lor (shl_promoted P (Z_of_bool rw) 15) (shl_promoted P (Z_of_bool inn) 14)
  = Z.shiftl (2 * Z_of_bool rw + Z_of_bool inn) 14.
Proof. unfold shl_promoted. destruct (int_bits P <=? 16), rw, inn; reflexivity. Qed.

Lemma command_word_sum (rw inn : bool) (res : Z) :
  0 <= res < 2 ^ 14 ->
  u16 (Z.lor res (Z.shiftl (2 * Z_of_bool rw + Z_of_bool inn) 14))
  = res + (if inn then 0x4000 else 0) + (if rw then 0x8000 else 0).
Proof.
  intros Hres. rewrite lor_low_shiftl by lia.
  change (2 ^ 14) with 16384 in *.
  destruct rw, inn; cbn [Z_of_bool]; rewrite u16_small; lia.
Qed.

(** X3. For a register address that fits in 14 bits the command word is
    the documented one on every platform: bit 15 is [rw], bit 14 is [in],
    and the low 14 bits are the address when [in] is set and zero when it is
    not. *)
Lemma command_word_in_range (rw inn : bool) (reg : Z) :
  0 <= reg < 2 ^ 14 ->
  command_word P rw inn reg =
  (if inn then reg else 0) + (if inn then 0x4000 else 0) + (if rw then 0x8000 else 0).
Proof.
  intros Hreg. change (2 ^ 14) with 16384 in Hreg.
  unfold command_word. rewrite command_flags.
  rewrite (u16_small reg) by lia.
  assert (Hshl : shl_promoted P reg 2 = Z.shiftl reg 2).
  { unfold shl_promoted. destruct (int_bits P <=? 16); [|reflexivity].
    apply u16_small. rewrite Z.shiftl_mul_pow2 by lia. change (2 ^ 2) with 4. lia. }
  rewrite Hshl, Z.shiftr_shiftl_l by lia. change (2 - 2) with 0.
  rewrite Z.shiftl_0_r, (u16_small reg) by lia.
  rewrite <- command_word_sum by (destruct inn; change (2 ^ 14) with 16384; lia).
  reflexivity.
Qed.

(** X4. Where [int] has 16 bits the two shifts do clear bits 14 and 15 of
    any 16-bit [reg]: only its low 14 bits reach the command word. *)
Lemma command_word_int16 (rw inn : bool) (reg : Z) :
  int_bits P <= 16 ->
  0 <= reg < 65536 ->
  command_word P rw inn reg =
  (if inn then reg mod 2 ^ 14 else 0)
  + (if inn then 0x4000 else 0) + (if rw then 0x8000 else 0).
Proof.
  intros Hint Hreg. apply Z.leb_le in Hint.
  unfold command_word. rewrite command_flags.
  rewrite (u16_small reg) by lia.
  assert (Hshl : Z.shiftr (shl_promoted P reg 2) 2 = reg mod 2 ^ 14).
  { unfold shl_promoted. rewrite Hint. unfold u16.
    rewrite Z.shiftl_mul_pow2, Z.shiftr_div_pow2 by lia.
    change 65536 with (2 ^ 14 * 2 ^ 2).
    rewrite Z.mul_mod_distr_r by (cbn; lia).
    apply Z.div_mul. cbn; lia. }
  rewrite Hshl.
  pose proof (Z.mod_pos_bound reg (2 ^ 14) ltac:(cbn; lia)) as Hm.
  rewrite (u16_small (reg mod 2 ^ 14)) by (change (2 ^ 14) with 16384 in *; lia).
  rewrite <- command_word_sum by (destruct inn; change (2 ^ 14) with 16384 in *; lia).
  reflexivity.
Qed.

End Codec.

(** ** Bus traffic of the register helpers *)

Lemma chip_read2_range (pending : list Z) (b0 b1 : Z) (rest : list Z) :
  chip_read2 pending = (b0, b1, rest) -> 0 <= b0 < 256 /\ 0 <= b1 < 256.
Proof.
  unfold chip_read2. intros H.
  pose proof (chip_read_range pending) as H0.
  destruct (chip_read pending) as [x0 r0].
  pose proof (chip_read_range r0) as H1.
  destruct (chip_read r0) as [x1 r1].
  injection H as <- <- <-. simpl in *. lia.
Qed.

Lemma reg_value_range (P : platform) (b0 b1 : Z) :
  0 <= b0 < 256 -> 0 <= b1 < 256 -> 0 <= reg_value P b0 b1 < 65536.
Proof. unfold reg_value. destruct (host_le P); lia. Qed.

Lemma chip_after_bus (p : list Z) (e : list spi_event) (w : world) :
  chip (after_bus p e w) = p.
Proof. reflexivity. Qed.

Lemma after_bus_nil (w : world) : after_bus (chip w) [] w = w.
Proof. destruct w. unfold after_bus. simpl. now rewrite app_nil_r. Qed.

Lemma zrange_length (i : Z) (n : nat) : length (zrange i n) = n.
Proof. revert i. induction n as [|n IH]; intros i; cbn; [|rewrite IH]; reflexivity. Qed.

Lemma zrange_nth (i : Z) (n k : nat) (d : Z) :
  (k < n)%nat -> nth k (zrange i n) d = i + Z.of_nat k.
Proof.
  revert i k. induction n as [|n IH]; intros i k Hk; [lia|].
  destruct k as [|k]; cbn [zrange nth].
  - lia.
  - rewrite IH by lia. lia.
Qed.

Lemma nth_map_within {A B : Type} (f : A -> B) (l : list A) (k : nat) (d : B) (d' : A) :
  (k < length l)%nat -> nth k (map f l) d = f (nth k l d').
Proof.
  revert k. induction l as [|x l IH]; intros k Hk; cbn in *; [lia|].
  destruct k; [reflexivity | apply IH; lia].
Qed.

(** For a payload of bytes whose length is [size], the frame-data loop of
    [qca7k_send] sends the payload followed by zeros up to 60 bytes. *)
Lemma sent_payload_padded (data : list Z) :
  Forall (fun b => 0 <= b < 256) data ->
  sent_payload data (Z.of_nat (length data)) = padded data.
Proof.
  intros Hbytes. unfold sent_payload, padded. change QCA7K_FRAME_MIN with 60.
  set (n := Z.to_nat (Z.max (Z.of_nat (length data)) 60)).
  assert (Hn : n = (length data + (Z.to_nat 60 - length data))%nat) by lia.
  apply (nth_ext _ _ 0 0).
  - rewrite length_map, zrange_length, length_app, repeat_length. exact Hn.
  - intros k Hk. rewrite length_map, zrange_length in Hk.
    rewrite (nth_map_within _ _ _ _ 0) by (rewrite zrange_length; exact Hk).
    rewrite zrange_nth by exact Hk.
    cbn [Z.add]. rewrite Nat2Z.id.
    destruct (Z.ltb_spec (Z.of_nat k) (Z.of_nat (length data))) as [Hlt|Hge].
    + rewrite app_nth1 by lia. apply u8_small.
      rewrite Forall_forall in Hbytes. apply Hbytes, nth_In. lia.
    + rewrite app_nth2 by lia. rewrite nth_repeat. reflexivity.
Qed.

Section Traffic.

Variable P : platform.

Lemma command_word_u16 (rw inn : bool) (reg : Z) :
  u16 (command_word P rw inn reg) = command_word P rw inn reg.
Proof. unfold command_word. apply u16_idem. Qed.

Lemma write_command_spec (rw inn : bool) (reg : Z) (w : world) :
  qca7k_write_command P rw inn reg w =
  (tt, after_bus (chip w) [MOSI (hi8 (command_word P rw inn reg));
                           MOSI (lo8 (command_word P rw inn reg))] w).
Proof.
  unfold qca7k_write_command. rewrite write_register_spec.
  now rewrite command_word_u16.
Qed.

(** One pass of symbolic execution: expose the next primitive, replace it by
    its effect on the bus, merge the effect into what was gathered so far. *)
Ltac bus_step :=
  first [ rewrite write_command_spec
        | rewrite write_register_spec
        | rewrite read_register_spec ];
  cbv beta iota zeta;
  rewrite ?chip_after_bus, ?after_bus_after_bus.

Ltac bus_open :=
  unfold bind, ret, qca7k_spi_begin, qca7k_spi_end;
  cbv beta iota zeta;
  rewrite ?emit_after_bus, ?chip_after_bus, ?after_bus_after_bus.

Lemma interrupts_set_spec (mask : Z) (w : world) :
  qca7k_interrupts_set P mask w =
  (tt, after_bus (chip w) (reg_write_txn QCA7K_REG_INTR_ENABLE (u16 mask)) w).
Proof.
  unfold qca7k_interrupts_set. bus_open. do 2 (bus_step; bus_open).
  rewrite command_word_write_internal by (cbn [In]; auto 10).
  reflexivity.
Qed.

(** C8. [qca7k_interrupt_reasons] does exactly three transactions on the
    bus: it writes 0 to the interrupt-enable register, reads the
    interrupt-cause register once, and writes the value it has just read back
    to the interrupt-cause register once; it returns that value.  Nothing
    else is put on the bus (so the enable register still holds 0 afterwards)
    and the receive context and memory are untouched. *)
Theorem interrupt_reasons_protocol (w : world) :
  let '(b0, b1, rest) := chip_read2 (chip w) in
  let reasons := reg_value P b0 b1 in
  qca7k_interrupt_reasons P w =
  (reasons,
   after_bus rest
     (reg_write_txn QCA7K_REG_INTR_ENABLE 0
      ++ reg_read_txn QCA7K_REG_INTR_CAUSE b0 b1
      ++ reg_write_txn QCA7K_REG_INTR_CAUSE reasons) w).
Proof.
  destruct (chip_read2 (chip w)) as [[b0 b1] rest] eqn:Hchip.
  destruct (chip_read2_range _ _ _ _ Hchip) as [H0 H1].
  pose proof (reg_value_range P b0 b1 H0 H1) as Hv.
  cbv zeta.
  unfold qca7k_interrupt_reasons, qca7k_interrupts_disable_all.
  unfold bind at 1. rewrite interrupts_set_spec.
  bus_open. bus_step. bus_open. bus_step. rewrite Hchip. bus_open.
  do 2 (bus_step; bus_open).
  rewrite command_word_read_internal, command_word_write_internal
    by (cbn [In]; auto 10).
  rewrite (u16_small (reg_value P b0 b1)) by assumption.
  reflexivity.
Qed.

Lemma for_loop_write (f : Z -> Z) (n : nat) (i : Z) (w : world) :
  for_loop n i (fun k => qca7k_spi_write (f k)) w =
  (tt, after_bus (chip w) (map (fun k => MOSI (u8 (f k))) (zrange i n)) w).
Proof.
  revert i w. induction n as [|n IH]; intros i w.
  - simpl. unfold ret. now rewrite after_bus_nil.
  - cbn [for_loop zrange map]. unfold bind, qca7k_spi_write at 1.
    rewrite IH, emit_after_bus, chip_after_bus, after_bus_after_bus.
    reflexivity.
Qed.

Lemma size_to_write_max (size : Z) :
  (if size <? QCA7K_FRAME_MIN then QCA7K_FRAME_MIN else size)
  = Z.max size QCA7K_FRAME_MIN.
Proof. destruct (Z.ltb_spec size QCA7K_FRAME_MIN); lia. Qed.

(** C6. Admission control of [qca7k_send].  A [size] above [QCA7K_FRAME_MAX]
    gives [QCA7K_FRAME_OVERFLOW] and leaves the world, bus included, as it
    was.  Otherwise, when the value read from the write-space-available
    register is below 4 + 2 + 2 + max(size, 60) + 2, the call returns
    [QCA7K_WRITE_BUFFER_INSUFFICIENT] and the only bus traffic is the
    space-check transaction: its command word and the two bytes read. *)
Theorem send_admission (data : list Z) (size : Z) (w : world)
                       (b0 b1 : Z) (rest : list Z) :
  (QCA7K_FRAME_MAX < size ->
   qca7k_send P data size w = (QCA7K_FRAME_OVERFLOW, w)) /\
  (size <= QCA7K_FRAME_MAX ->
   chip_read2 (chip w) = (b0, b1, rest) ->
   reg_value P b0 b1 < 4 + 2 + 2 + Z.max size 60 + 2 ->
   qca7k_send P data size w =
   (QCA7K_WRITE_BUFFER_INSUFFICIENT,
    after_bus rest (reg_read_txn QCA7K_REG_WRBUF_SPC_AVA b0 b1) w)).
Proof.
  split.
  - intros Hsize. unfold qca7k_send.
    destruct (Z.ltb_spec QCA7K_FRAME_MAX size); [reflexivity | lia].
  - intros Hsize Hchip Hspace. unfold qca7k_send.
    destruct (Z.ltb_spec QCA7K_FRAME_MAX size); [lia|].
    rewrite size_to_write_max. change QCA7K_FRAME_MIN with 60.
    bus_open. bus_step. bus_open. bus_step. rewrite Hchip. bus_open.
    destruct (Z.ltb_spec (reg_value P b0 b1) (4 + 2 + 2 + Z.max size 60 + 2)); [|lia].
    rewrite command_word_read_internal by (cbn [In]; auto 10).
    reflexivity.
Qed.

(** What [qca7k_send] puts on the bus when the frame is admitted: the space
    check, the buffer-size write, and one external write carrying SOF,
    reserved bytes, payload and EOF. *)
Lemma send_wire (data : list Z) (size : Z) (w : world)
                (b0 b1 : Z) (rest : list Z) :
  0 <= size <= QCA7K_FRAME_MAX ->
  chip_read2 (chip w) = (b0, b1, rest) ->
  wire_size size <= reg_value P b0 b1 ->
  qca7k_send P data size w =
  (QCA7K_OK,
   after_bus rest
     (reg_read_txn QCA7K_REG_WRBUF_SPC_AVA b0 b1
      ++ reg_write_txn QCA7K_REG_BFR_SIZE (wire_size size)
      ++ [CS_low; MOSI 0x00; MOSI 0x00]
      ++ map MOSI ([0xAA; 0xAA; 0xAA; 0xAA; 0x00; 0x00]
                   ++ sent_payload data size ++ [0x55; 0x55])
      ++ [CS_high]) w).
Proof.
  intros Hsize Hchip Hspace. unfold qca7k_send, wire_size in *.
  change QCA7K_FRAME_MAX with 1522 in *. change QCA7K_FRAME_MIN with 60 in *.
  destruct (Z.ltb_spec 1522 size); [lia|].
  change (if size <? 60 then 60 else size)
    with (if size <? QCA7K_FRAME_MIN then QCA7K_FRAME_MIN else size).
  rewrite size_to_write_max. change QCA7K_FRAME_MIN with 60.
  bus_open. bus_step. bus_open. bus_step. rewrite Hchip. bus_open.
  destruct (Z.ltb_spec (reg_value P b0 b1) (4 + 2 + 2 + Z.max size 60 + 2)); [lia|].
  do 6 (bus_step; bus_open).
  rewrite for_loop_write. bus_open. bus_step. bus_open.
  rewrite command_word_read_internal, command_word_write_internal
    by (cbn [In]; auto 10).
  rewrite command_word_external.
  rewrite !__u16_spec by (unfold QCA7K_SOF, QCA7K_RESERVED, QCA7K_EOF; lia).
  rewrite !(u16_small (4 + 2 + 2 + Z.max size 60 + 2)) by lia.
  unfold sent_payload. rewrite map_app, map_app, map_map.
  change QCA7K_FRAME_MIN with 60.
  rewrite <- !app_assoc.
  reflexivity.
Qed.

End Traffic.

(** ** The receive state machine *)

Arguments usize : simpl never.
Arguments u8 !x /.
Arguments u16 !x /.
Arguments set_state s c /.
Arguments set_ptr p c /.
Arguments set_bytes_left n c /.
Arguments set_expected b c /.
Arguments set_fl x c /.
Arguments fresh_ctx data /.
Arguments with_ctx c w /.
Arguments with_v v w /.
Arguments emit e w /.
Arguments shl_promoted : simpl never.

Section Receiver.

Variable P : platform.

Lemma pow_size_bits : 16 <= size_bits P -> 65536 <= 2 ^ size_bits P.
Proof.
  intros H. change 65536 with (2 ^ 16). apply Z.pow_le_mono_r; lia.
Qed.

Lemma usize_small (x : Z) :
  16 <= size_bits P -> 0 <= x < 65536 -> usize P x = x.
Proof.
  intros H Hx. pose proof (pow_size_bits H).
  unfold usize. apply Z.mod_small. lia.
Qed.

Lemma usize_minus_one :
  16 <= size_bits P -> usize P (-1) = 2 ^ size_bits P - 1.
Proof.
  intros H. pose proof (pow_size_bits H) as Hp. unfold usize.
  symmetry. apply (Z.mod_unique (-1) (2 ^ size_bits P) (-1)); lia.
Qed.

(** A pass through the loop body never asks for the byte to be looked at
    again: after [qca7k_reset_state_machine] the state is [QCA7K_READING_SOF],
    so the test that guards [retry_loop = true; i--] cannot succeed. *)
Lemma loop_body_flow (i : Z) (retry_loop : bool) (w : world) :
  fst (loop_body P i retry_loop w) = Goto_done \/
  fst (loop_body P i retry_loop w) = Next i false.
Proof.
  unfold loop_body, accept, end_of_stage, bind, ret, get_v, get_ctx, put_ctx,
    put_v, store, qca7k_reset_state_machine, qca7k_spi_read.
  destruct w as [pending tr [st origin ptr left expected fl] v m].
  destruct retry_loop; cbn [negb chip];
    [| destruct (chip_read pending) as [b rest] ];
    destruct st; cbn;
    repeat match goal with
           | |- context [if ?c then _ else _] => destruct c; cbn
           end; auto.
Qed.

(** The world a pass leaves behind does not depend on the loop counter. *)
Lemma loop_body_world (i j : Z) (retry_loop : bool) (w : world) :
  snd (loop_body P i retry_loop w) = snd (loop_body P j retry_loop w).
Proof.
  unfold loop_body, accept, end_of_stage, bind, ret, get_v, get_ctx, put_ctx,
    put_v, store, qca7k_reset_state_machine, qca7k_spi_read.
  destruct w as [pending tr [st origin ptr left expected fl] v m].
  destruct retry_loop; cbn [negb chip];
    [| destruct (chip_read pending) as [b rest] ];
    destruct st; cbn;
    repeat match goal with
           | |- context [if ?c then _ else _] => destruct c; cbn
           end; auto.
Qed.

(** The scan loop terminates: [bytes_available - i] passes are enough. *)
Lemma scan_terminates (fuel : nat) (bytes_available i : Z) (w : world) :
  16 <= size_bits P ->
  0 <= i -> bytes_available < 65536 ->
  (Z.to_nat (bytes_available - i) < fuel)%nat ->
  exists w', scan P fuel bytes_available i false w = Some w'.
Proof.
  intros H16. revert i w.
  induction fuel as [|fuel IH]; intros i w Hi Hb Hfuel; [lia|].
  cbn [scan]. destruct (Z.ltb_spec i bytes_available) as [Hlt|Hge].
  - destruct (loop_body_flow i false w) as [E|E];
      destruct (loop_body P i false w) as [f w']; cbn [fst] in E; subst f.
    + now exists w'.
    + rewrite usize_small by lia. apply IH; lia.
  - now exists w.
Qed.

(** [qca7k_recv] always returns. *)
Lemma qca7k_recv_returns (data : Z) (w : world) :
  16 <= size_bits P ->
  exists r, qca7k_recv P data w = Some r.
Proof.
  intros H16. unfold qca7k_recv.
  destruct (data =? NULL); [eauto|].
  destruct ((c <- get_ctx ;;
             if needs_reset data c then qca7k_reset_state_machine data else ret tt) w)
    as [[] w1].
  unfold recv_available.
  destruct ((qca7k_spi_begin ;;
             qca7k_write_command P true true QCA7K_REG_RDBUF_BYTE_AVA ;;
             bytes_available <- qca7k_read_register P ;;
             qca7k_spi_end ;; ret bytes_available) w1) as [ba w2] eqn:Hq.
  assert (Hba : 0 <= ba < 65536).
  { revert Hq. unfold bind, ret, qca7k_spi_begin, qca7k_spi_end.
    cbv beta iota zeta. rewrite write_command_spec. cbv beta iota zeta.
    rewrite read_register_spec.
    destruct (chip_read2 _) as [[b0 b1] rest] eqn:Hc.
    intros [= <- _].
    destruct (chip_read2_range _ _ _ _ Hc). now apply reg_value_range. }
  destruct (ba =? 0); [eauto|].
  destruct ((qca7k_spi_begin ;; qca7k_write_command P true false 0) w2) as [[] w3].
  destruct (scan_terminates (scan_fuel ba) ba 0 w3 H16) as [w4 ->];
    [lia | lia | unfold scan_fuel; lia |].
  destruct (qca7k_spi_end w4) as [[] w5]. eauto.
Qed.

Lemma state_eqb_eq (a b : qca7k_state_t) : state_eqb a b = true <-> a = b.
Proof.
  split; [| intros ->; unfold state_eqb; apply Z.eqb_refl].
  destruct a, b; unfold state_eqb; cbn; congruence.
Qed.

(** The entry test of [qca7k_recv], as a proposition. *)
Lemma needs_reset_spec (data : Z) (c : recv_ctx) :
  needs_reset data c = true <->
  (g_recv_buf_origin c = NULL \/ data <> g_recv_buf_origin c \/
   g_state c = QCA7K_OK \/ g_state c = QCA7K_INTERNAL_ERROR).
Proof.
  unfold needs_reset.
  rewrite !orb_true_iff, negb_true_iff, Z.eqb_eq, Z.eqb_neq, !state_eqb_eq.
  tauto.
Qed.

(** C9. With a NULL [data] pointer [qca7k_recv] returns
    [QCA7K_NULL_RECV_BUFFER] and leaves the whole world as it found it: no
    bus event is added, no pending chip byte is taken, and the receive
    context, the static byte and memory are unchanged.  A later call with
    the buffer of a frame in progress therefore behaves as if the NULL call
    had not happened. *)
Theorem recv_null_buffer (w : world) :
  qca7k_recv P NULL w = Some (QCA7K_NULL_RECV_BUFFER, w) /\
  forall data : Z,
    match qca7k_recv P NULL w with
    | Some (_, w') => qca7k_recv P data w' = qca7k_recv P data w
    | None => False
    end.
Proof. split; [reflexivity | intros data; reflexivity]. Qed.

(** A call that returns [QCA7K_OK] or [QCA7K_INTERNAL_ERROR] leaves that
    value in [_g_state]: the other values it can return without a look at
    [_g_state] are [QCA7K_NULL_RECV_BUFFER] and [QCA7K_EMPTY_READ_BUFFER]. *)
Lemma recv_returns_recorded_state (data : Z) (w w' : world) (s : qca7k_state_t) :
  qca7k_recv P data w = Some (s, w') ->
  s = QCA7K_OK \/ s = QCA7K_INTERNAL_ERROR ->
  g_state (ctx w') = s.
Proof.
  unfold qca7k_recv.
  destruct (data =? NULL); [intros [= <- <-] [H|H]; discriminate H|].
  destruct ((c <- get_ctx ;;
             if needs_reset data c then qca7k_reset_state_machine data else ret tt) w)
    as [[] w1].
  unfold recv_available.
  destruct ((qca7k_spi_begin ;;
             qca7k_write_command P true true QCA7K_REG_RDBUF_BYTE_AVA ;;
             bytes_available <- qca7k_read_register P ;;
             qca7k_spi_end ;; ret bytes_available) w1) as [ba w2].
  destruct (ba =? 0); [intros [= <- <-] [H|H]; discriminate H|].
  destruct ((qca7k_spi_begin ;; qca7k_write_command P true false 0) w2) as [[] w3].
  destruct (scan P (scan_fuel ba) ba 0 false w3) as [w4|]; [|discriminate].
  unfold qca7k_spi_end. intros [= <- <-] _. reflexivity.
Qed.

(** C7. Entry behaviour of [qca7k_recv] for a non-NULL buffer.  If no buffer
    was bound before, or [data] is not the buffer in progress, or the state
    left behind is [QCA7K_OK] or [QCA7K_INTERNAL_ERROR] (as it is whenever
    the previous call returned one of the two), the rest of the call
    (register query and scan) runs on the context [QCA7K_READING_SOF] bound
    to [data]: cursor at [data], 4 bytes expected, expected byte SOF,
    accumulated length 0.  Otherwise it runs on the context exactly as the
    previous call left it. *)
Theorem recv_entry_behaviour (data : Z) (w : world) :
  data <> NULL ->
  ((g_recv_buf_origin (ctx w) = NULL \/ data <> g_recv_buf_origin (ctx w) \/
    g_state (ctx w) = QCA7K_OK \/ g_state (ctx w) = QCA7K_INTERNAL_ERROR) ->
   qca7k_recv P data w =
   recv_available P
     (with_ctx (mk_ctx QCA7K_READING_SOF data data 4 QCA7K_SOF 0) w)) /\
  (~ (g_recv_buf_origin (ctx w) = NULL \/ data <> g_recv_buf_origin (ctx w) \/
      g_state (ctx w) = QCA7K_OK \/ g_state (ctx w) = QCA7K_INTERNAL_ERROR) ->
   qca7k_recv P data w = recv_available P w) /\
  (forall (data0 : Z) (w0 : world) (s : qca7k_state_t),
     qca7k_recv P data0 w0 = Some (s, w) ->
     s = QCA7K_OK \/ s = QCA7K_INTERNAL_ERROR ->
     qca7k_recv P data w =
     recv_available P
       (with_ctx (mk_ctx QCA7K_READING_SOF data data 4 QCA7K_SOF 0) w)).
Proof.
  intros Hdata. apply Z.eqb_neq in Hdata.
  assert (Hreset :
    needs_reset data (ctx w) = true ->
    qca7k_recv P data w =
    recv_available P
      (with_ctx (mk_ctx QCA7K_READING_SOF data data 4 QCA7K_SOF 0) w)).
  { intros H.
    unfold qca7k_recv, bind, get_ctx, qca7k_reset_state_machine, put_ctx, ret.
    rewrite Hdata, H. reflexivity. }
  split; [| split].
  - intros H. apply Hreset, needs_reset_spec, H.
  - intros H. rewrite <- needs_reset_spec in H. apply not_true_is_false in H.
    unfold qca7k_recv, bind, get_ctx, qca7k_reset_state_machine, put_ctx, ret.
    rewrite Hdata, H. reflexivity.
  - intros data0 w0 s Hprev Hs.
    pose proof (recv_returns_recorded_state _ _ _ _ Hprev Hs) as Hstate.
    apply Hreset, needs_reset_spec. destruct Hs as [-> | ->]; auto.
Qed.

(** With nothing to read the call ends after the register query and the
    context is the one the entry test produced. *)
Lemma recv_available_empty (w : world) (b0 b1 : Z) (rest : list Z) :
  chip_read2 (chip w) = (b0, b1, rest) ->
  reg_value P b0 b1 = 0 ->
  recv_available P w =
  Some (QCA7K_EMPTY_READ_BUFFER,
        after_bus rest (reg_read_txn QCA7K_REG_RDBUF_BYTE_AVA b0 b1) w).
Proof.
  intros Hchip Hv. unfold recv_available, bind, ret, qca7k_spi_begin, qca7k_spi_end.
  cbv beta iota zeta. rewrite write_command_spec. cbv beta iota zeta.
  rewrite read_register_spec, !emit_after_bus, !chip_after_bus, !after_bus_after_bus.
  rewrite Hchip. cbv beta iota zeta. rewrite Hv. cbn [Z.eqb].
  rewrite !emit_after_bus, !chip_after_bus, !after_bus_after_bus.
  rewrite command_word_read_internal by (cbn [In]; auto 10).
  reflexivity.
Qed.

(** With [n] > 0 bytes to read the call opens the external read and scans. *)
Lemma recv_available_scan (w : world) (b0 b1 : Z) (rest : list Z) :
  chip_read2 (chip w) = (b0, b1, rest) ->
  reg_value P b0 b1 <> 0 ->
  recv_available P w =
  match scan P (scan_fuel (reg_value P b0 b1)) (reg_value P b0 b1) 0 false
          (after_bus rest
             (reg_read_txn QCA7K_REG_RDBUF_BYTE_AVA b0 b1
              ++ [CS_low; MOSI 0x80; MOSI 0x00]) w) with
  | None => None
  | Some w' => Some (g_state (ctx w'), emit CS_high w')
  end.
Proof.
  intros Hchip Hv. unfold recv_available, bind, ret, qca7k_spi_begin, qca7k_spi_end.
  cbv beta iota zeta. rewrite write_command_spec. cbv beta iota zeta.
  rewrite read_register_spec, !emit_after_bus, !chip_after_bus, !after_bus_after_bus.
  rewrite Hchip. cbv beta iota zeta.
  apply Z.eqb_neq in Hv. rewrite Hv.
  rewrite write_command_spec.
  rewrite !emit_after_bus, !chip_after_bus, !after_bus_after_bus.
  rewrite command_word_read_internal by (cbn [In]; auto 10).
  rewrite command_word_external.
  rewrite <- !app_assoc. reflexivity.
Qed.

Arguments scan : simpl never.

Lemma scan_unfold (fuel : nat) (bytes_available i : Z) (retry_loop : bool)
                   (w : world) :
  scan P (S fuel) bytes_available i retry_loop w =
  if i <? bytes_available then
    match loop_body P i retry_loop w with
    | (Next i' retry_loop', w') =>
        scan P fuel bytes_available (usize P (i' + 1)) retry_loop' w'
    | (Goto_done, w') => Some w'
    end
  else Some w.
Proof. reflexivity. Qed.

Lemma usize_minus_one_nonzero :
  16 <= size_bits P -> (usize P (-1) =? 0) = false.
Proof.
  intros H16. rewrite usize_minus_one by assumption.
  pose proof (pow_size_bits H16). apply Z.eqb_neq. lia.
Qed.

(** One pass in [QCA7K_READING_FRAME] with the byte counter at 0: the byte
    is stored and the counter wraps to the largest [size_t]. *)
Lemma loop_body_frame_counter_zero (i b : Z) (rest : list Z) (w : world) :
  16 <= size_bits P ->
  g_state (ctx w) = QCA7K_READING_FRAME ->
  g_state_bytes_left (ctx w) = 0 ->
  chip w = b :: rest ->
  loop_body P i false w =
  (Next i false,
   mk_world rest (trace w ++ [MISO (u8 b)])
     (mk_ctx QCA7K_READING_FRAME (g_recv_buf_origin (ctx w))
        (g_recv_buf_ptr (ctx w) + 1) (2 ^ size_bits P - 1)
        (g_expected_byte (ctx w)) (g_fl (ctx w)))
     (u8 b)
     ((g_recv_buf_ptr (ctx w), u8 b) :: mem w)).
Proof.
  intros H16.
  destruct w as [pending tr [st origin ptr left expected fl] v m].
  cbn [ctx chip g_state g_state_bytes_left]. intros -> -> ->.
  unfold loop_body, accept, bind, ret, get_v, get_ctx, put_ctx, put_v, store,
    qca7k_spi_read.
  cbn. rewrite (usize_minus_one_nonzero H16), (usize_minus_one H16).
  reflexivity.
Qed.

(** The pass that reads the last reserved byte after a length of 0: the
    state becomes [QCA7K_READING_FRAME] with the counter at 0. *)
Lemma loop_body_reserved_length_zero (i : Z) (rest : list Z) (w : world) :
  16 <= size_bits P ->
  g_state (ctx w) = QCA7K_READING_RESERVED ->
  g_state_bytes_left (ctx w) = 1 ->
  g_expected_byte (ctx w) = QCA7K_RESERVED ->
  g_fl (ctx w) = 0 ->
  chip w = 0x00 :: rest ->
  loop_body P i false w =
  (Next i false,
   mk_world rest (trace w ++ [MISO 0x00])
     (mk_ctx QCA7K_READING_FRAME (g_recv_buf_origin (ctx w))
        (g_recv_buf_origin (ctx w)) 0 QCA7K_RESERVED 0)
     0x00
     (mem w)).
Proof.
  intros H16.
  destruct w as [pending tr [st origin ptr left expected fl] v m].
  cbn [ctx chip g_state g_state_bytes_left g_expected_byte g_fl].
  intros -> -> -> -> ->.
  unfold loop_body, accept, end_of_stage, bind, ret, get_v, get_ctx, put_ctx,
    put_v, store, qca7k_spi_read.
  cbn. rewrite !(usize_small _ H16) by lia. cbn. reflexivity.
Qed.

(** Symbolic execution of the scan loop on known bytes: open one pass, run
    it until a [size_t] reduction or a promoted shift blocks, rewrite that,
    go on. *)
Ltac scan_pass H16 :=
  rewrite scan_unfold;
  repeat (cbn;
          rewrite ?(usize_small _ H16), ?shl8_byte,
                  ?(usize_minus_one_nonzero H16) by lia).

Ltac scan_run H16 := repeat (scan_pass H16).

Ltac world_norm := cbn; rewrite <- ?app_assoc; cbn [app].

(** C10. A frame header announcing length 0.  On a fresh parse of SOF,
    length bytes 00 00 and reserved bytes 00 00, [qca7k_recv] is in
    [QCA7K_READING_FRAME] with a byte counter of 0 and the cursor at the
    origin.  The next byte [b] is stored at the origin and the counter is
    decremented from 0 to 2^size_bits - 1: the state stays
    [QCA7K_READING_FRAME] instead of moving on to [QCA7K_READING_EOF]. *)
Theorem recv_zero_length_wraps (data b : Z) (rest : list Z) (w : world) :
  16 <= size_bits P ->
  data <> NULL ->
  needs_reset data (ctx w) = true ->
  qca7k_recv P data
    (with_chip (reg_bytes P 8 ++ zero_length_header ++ rest) w) =
  Some (QCA7K_READING_FRAME,
        mk_world rest
          (trace w ++ available_txn P 8 ++ external_read_txn zero_length_header)
          (mk_ctx QCA7K_READING_FRAME data data 0 QCA7K_RESERVED 0)
          0
          (mem w))
  /\
  qca7k_recv P data
    (with_chip (reg_bytes P 9 ++ zero_length_header ++ b :: rest) w) =
  Some (QCA7K_READING_FRAME,
        mk_world rest
          (trace w ++ available_txn P 9
           ++ external_read_txn (zero_length_header ++ [u8 b]))
          (mk_ctx QCA7K_READING_FRAME data (data + 1)
                  (2 ^ size_bits P - 1) QCA7K_RESERVED 0)
          (u8 b)
          ((data, u8 b) :: mem w)).
Proof.
  intros H16 Hdata Hreset. apply Z.eqb_neq in Hdata.
  pose proof (pow_size_bits H16) as Hpow.
  unfold qca7k_recv, bind, get_ctx, qca7k_reset_state_machine, put_ctx, ret.
  rewrite Hdata. cbn [ctx with_chip]. rewrite Hreset.
  unfold available_txn, external_read_txn, reg_bytes.
  split.
  - destruct (host_le P) eqn:Hle.
    + rewrite (recv_available_scan _ 8 0 (zero_length_header ++ rest))
        by (unfold reg_value; rewrite ?Hle; reflexivity || discriminate).
      unfold reg_value. rewrite Hle.
      change (scan_fuel (8 + 256 * 0)) with 17%nat.
      change (8 + 256 * 0) with 8.
      scan_run H16. world_norm. reflexivity.
    + rewrite (recv_available_scan _ 0 8 (zero_length_header ++ rest))
        by (unfold reg_value; rewrite ?Hle; reflexivity || discriminate).
      unfold reg_value. rewrite Hle.
      change (scan_fuel (256 * 0 + 8)) with 17%nat.
      change (256 * 0 + 8) with 8.
      scan_run H16. world_norm. reflexivity.
  - destruct (host_le P) eqn:Hle.
    + rewrite (recv_available_scan _ 9 0 (zero_length_header ++ b :: rest))
        by (unfold reg_value; rewrite ?Hle; reflexivity || discriminate).
      unfold reg_value. rewrite Hle.
      change (scan_fuel (9 + 256 * 0)) with 19%nat.
      change (9 + 256 * 0) with 9.
      scan_run H16. rewrite <- ?app_assoc. cbn [app].
      rewrite usize_minus_one by assumption. reflexivity.
    + rewrite (recv_available_scan _ 0 9 (zero_length_header ++ b :: rest))
        by (unfold reg_value; rewrite ?Hle; reflexivity || discriminate).
      unfold reg_value. rewrite Hle.
      change (scan_fuel (256 * 0 + 9)) with 19%nat.
      change (256 * 0 + 9) with 9.
      scan_run H16. rewrite <- ?app_assoc. cbn [app].
      rewrite usize_minus_one by assumption. reflexivity.
Qed.

End Receiver.

(** ** The code at concrete inputs *)

(** C1. Sending the ten-byte payload with room for 100 bytes reported.  On
    every platform the buffer-size register is written with 70, but the
    external write carries 68 bytes: four SOF bytes, the two reserved bytes,
    the payload padded to 60 bytes and two EOF bytes.  The two bytes of the
    length field (3C 00) are not on the wire. *)
Theorem send_omits_length_field (P : platform) :
  let r := qca7k_send P ten_bytes 10 (boot (reg_bytes P 100)) in
  fst r = QCA7K_OK /\
  trace (snd r) =
    [CS_low; MOSI 0xC2; MOSI 0x00] ++ map MISO (reg_bytes P 100) ++ [CS_high]
    ++ [CS_low; MOSI 0x41; MOSI 0x00; MOSI 0x00; MOSI 70; CS_high]
    ++ [CS_low; MOSI 0x00; MOSI 0x00]
    ++ map MOSI ([0xAA; 0xAA; 0xAA; 0xAA] ++ [0x00; 0x00]
                 ++ ten_bytes ++ repeat 0x00 50 ++ [0x55; 0x55])
    ++ [CS_high] /\
  streamed_bytes (trace (snd r)) =
    [0xAA; 0xAA; 0xAA; 0xAA] ++ [0x00; 0x00]
    ++ ten_bytes ++ repeat 0x00 50 ++ [0x55; 0x55] /\
  streamed_bytes (trace (snd r)) <>
    [0xAA; 0xAA; 0xAA; 0xAA] ++ [0x3C; 0x00] ++ [0x00; 0x00]
    ++ ten_bytes ++ repeat 0x00 50 ++ [0x55; 0x55].
Proof.
  destruct P as [le ib sb].
  unfold qca7k_send, bind, qca7k_write_command, command_word, __u16,
    qca7k_write_register, qca7k_read_register, frame_length_bytes,
    shl_promoted, reg_bytes.
  cbn [host_le int_bits size_bits].
  destruct le, (ib <=? 16); vm_compute; repeat split; discriminate.
Qed.

(** C2. A byte that fails the comparison in [QCA7K_READING_RESERVED] or
    [QCA7K_READING_EOF] is dropped, not looked at again.  With SOF and length
    0x0001 read, the byte 0xAA arrives where the reserved 0x00 is expected,
    or, one payload byte later, where the EOF 0x55 is expected: the context
    goes back to [QCA7K_READING_SOF] still waiting for 4 SOF bytes
    (re-examining 0xAA as an SOF byte would leave 3).  When that 0xAA is the
    first byte of a complete frame the frame is lost, although the same
    frame on its own is received. *)
Theorem recv_drops_mismatched_byte :
  outcome (qca7k_recv ilp32_le 4096
             (boot (reg_bytes ilp32_le 7
                    ++ [0xAA; 0xAA; 0xAA; 0xAA; 0x00; 0x01] ++ [0xAA]))) =
    Some (QCA7K_READING_SOF,
          mk_ctx QCA7K_READING_SOF 4096 4096 4 QCA7K_SOF 0, [], []) /\
  outcome (qca7k_recv ilp32_le 4096
             (boot (reg_bytes ilp32_le 10
                    ++ [0xAA; 0xAA; 0xAA; 0xAA; 0x00; 0x01; 0x00; 0x00; 0x09]
                    ++ [0xAA]))) =
    Some (QCA7K_READING_SOF,
          mk_ctx QCA7K_READING_SOF 4096 4096 4 QCA7K_SOF 0, [], [(4096, 9)]) /\
  outcome (qca7k_recv ilp32_le 4096
             (boot (reg_bytes ilp32_le 17
                    ++ [0xAA; 0xAA; 0xAA; 0xAA; 0x00; 0x01]
                    ++ frame_for_recv [9]))) =
    Some (QCA7K_READING_SOF,
          mk_ctx QCA7K_READING_SOF 4096 4096 4 QCA7K_SOF 0, [], []) /\
  outcome (qca7k_recv ilp32_le 4096
             (boot (reg_bytes ilp32_le 11 ++ frame_for_recv [9]))) =
    Some (QCA7K_OK,
          mk_ctx QCA7K_OK 4096 4096 4 QCA7K_SOF 0, [], [(4096, 9)]).
Proof. vm_compute. repeat split. Qed.

(** C3. A frame whose length field says 1523.  [qca7k_recv] stores all 1523
    payload bytes: the last one lands at offset 1522 = [QCA7K_FRAME_MAX] from
    the destination buffer and the cursor ends at origin + 1523. *)
Theorem recv_writes_past_frame_max :
  match qca7k_recv ilp32_le 4096
          (boot (reg_bytes ilp32_le 1531 ++ oversized_frame)) with
  | Some (s, w) =>
      s = QCA7K_READING_EOF /\
      length (mem w) = 1523%nat /\
      load (mem w) (4096 + QCA7K_FRAME_MAX) = Some 0x11 /\
      g_recv_buf_ptr (ctx w) = 4096 + QCA7K_FRAME_MAX + 1
  | None => False
  end.
Proof. vm_compute. repeat split. Qed.

(** C4. What [qca7k_send] streams for the ten-byte payload, fed to
    [qca7k_recv], is not received: the call ends in [QCA7K_READING_SOF] with
    nothing stored.  Nor is the envelope of the specification, whose length
    field is 3C 00: [qca7k_recv] takes it for 0x3C00 = 15360 and is left in
    [QCA7K_READING_FRAME], having stored the 60 payload bytes and the two
    EOF bytes, waiting for 15298 more. *)
Theorem send_recv_round_trip_fails :
  let sent :=
    streamed_bytes
      (trace (snd (qca7k_send ilp32_le ten_bytes 10
                     (boot (reg_bytes ilp32_le 100))))) in
  outcome (qca7k_recv ilp32_le 4096
             (boot (reg_bytes ilp32_le (Z.of_nat (length sent)) ++ sent))) =
    Some (QCA7K_READING_SOF,
          mk_ctx QCA7K_READING_SOF 4096 4096 4 QCA7K_SOF 0, [], []) /\
  match qca7k_recv ilp32_le 4096
          (boot (reg_bytes ilp32_le 70 ++ spec_envelope (padded ten_bytes))) with
  | Some (s, w) =>
      s = QCA7K_READING_FRAME /\
      g_fl (ctx w) = 0x3C00 /\
      g_state_bytes_left (ctx w) = 15298
  | None => False
  end.
Proof. vm_compute. repeat split. Qed.

(** C5. With a 32-bit [int] the pair of shifts in [qca7k_write_command]
    does not clear bits 14 and 15 of [reg]: for rw = false, in = true and
    reg = 0x8100 the command word is 0xC100, whose bit 15 is set although rw
    is false; the bus sees C1 00. *)
Theorem write_command_keeps_reg_bit15 :
  command_word ilp32_le false true 0x8100 = 0xC100 /\
  Z.testbit (command_word ilp32_le false true 0x8100) 15 = true /\
  trace (snd (qca7k_write_command ilp32_le false true 0x8100 (boot []))) =
    [MOSI 0xC1; MOSI 0x00].
Proof. vm_compute. repeat split. Qed.

(** ** The general statements at concrete inputs *)

(** [send_admission] on a Cortex-M: a 1523-byte request is refused without
    bus traffic, and a ten-byte request is refused after the space check
    when the chip reports 69 free bytes, one short of the 70 needed. *)
Lemma send_admission_witness :
  qca7k_send ilp32_le ten_bytes 1523 (boot []) = (QCA7K_FRAME_OVERFLOW, boot []) /\
  qca7k_send ilp32_le ten_bytes 10 (boot [69; 0]) =
  (QCA7K_WRITE_BUFFER_INSUFFICIENT,
   after_bus [] (reg_read_txn QCA7K_REG_WRBUF_SPC_AVA 69 0) (boot [69; 0])).
Proof.
  split.
  - apply (proj1 (send_admission ilp32_le ten_bytes 1523 (boot []) 0 0 [])).
    unfold QCA7K_FRAME_MAX. lia.
  - apply (proj2 (send_admission ilp32_le ten_bytes 10 (boot [69; 0]) 69 0 [])).
    + unfold QCA7K_FRAME_MAX. lia.
    + reflexivity.
    + vm_compute. reflexivity.
Defined.

(** [recv_entry_behaviour] on a Cortex-M: after power-on the call runs on a
    fresh context bound to the buffer at 4096; with a frame in progress in
    that buffer (SOF read, length pending) it runs on the context as it is;
    and after a call that returned [QCA7K_OK] it runs on a fresh context
    again. *)
Lemma recv_entry_behaviour_witness :
  qca7k_recv ilp32_le 4096 (boot [0; 0]) =
  recv_available ilp32_le
    (with_ctx (mk_ctx QCA7K_READING_SOF 4096 4096 4 QCA7K_SOF 0) (boot [0; 0])) /\
  qca7k_recv ilp32_le 4096
    (with_ctx (mk_ctx QCA7K_READING_FL 4096 4096 2 QCA7K_SOF 0) (boot [0; 0])) =
  recv_available ilp32_le
    (with_ctx (mk_ctx QCA7K_READING_FL 4096 4096 2 QCA7K_SOF 0) (boot [0; 0])) /\
  match qca7k_recv ilp32_le 4096
          (boot (reg_bytes ilp32_le 11 ++ frame_for_recv [9])) with
  | Some (s, w) =>
      s = QCA7K_OK /\
      qca7k_recv ilp32_le 4096 w =
      recv_available ilp32_le
        (with_ctx (mk_ctx QCA7K_READING_SOF 4096 4096 4 QCA7K_SOF 0) w)
  | None => False
  end.
Proof.
  assert (Hdata : 4096 <> NULL) by (unfold NULL; lia).
  split; [| split].
  - apply (proj1 (recv_entry_behaviour ilp32_le 4096 (boot [0; 0]) Hdata)).
    left. reflexivity.
  - apply (proj1 (proj2 (recv_entry_behaviour ilp32_le 4096
                    (with_ctx (mk_ctx QCA7K_READING_FL 4096 4096 2 QCA7K_SOF 0)
                       (boot [0; 0])) Hdata))).
    cbn. unfold NULL. intros [H | [H | [H | H]]];
      [lia | apply H; reflexivity | discriminate H | discriminate H].
  - destruct (qca7k_recv ilp32_le 4096
                (boot (reg_bytes ilp32_le 11 ++ frame_for_recv [9])))
      as [[s w]|] eqn:E.
    + assert (Hs : s = QCA7K_OK) by (vm_compute in E; congruence).
      split; [exact Hs|].
      apply (proj2 (proj2 (recv_entry_behaviour ilp32_le 4096 w Hdata))
               4096 _ s E).
      left. exact Hs.
    + vm_compute in E. discriminate E.
Defined.

(** [recv_zero_length_wraps] on a Cortex-M with the buffer at 4096 and the
    byte 0x77 following the header: the counter becomes 2^32 - 1. *)
Lemma recv_zero_length_wraps_witness :
  qca7k_recv ilp32_le 4096
    (with_chip (reg_bytes ilp32_le 8 ++ zero_length_header ++ []) (boot [])) =
  Some (QCA7K_READING_FRAME,
        mk_world []
          (trace (boot []) ++ available_txn ilp32_le 8
           ++ external_read_txn zero_length_header)
          (mk_ctx QCA7K_READING_FRAME 4096 4096 0 QCA7K_RESERVED 0)
          0
          (mem (boot [])))
  /\
  qca7k_recv ilp32_le 4096
    (with_chip (reg_bytes ilp32_le 9 ++ zero_length_header ++ 0x77 :: [])
       (boot [])) =
  Some (QCA7K_READING_FRAME,
        mk_world []
          (trace (boot []) ++ available_txn ilp32_le 9
           ++ external_read_txn (zero_length_header ++ [u8 0x77]))
          (mk_ctx QCA7K_READING_FRAME 4096 (4096 + 1)
                  (2 ^ size_bits ilp32_le - 1) QCA7K_RESERVED 0)
          (u8 0x77)
          ((4096, u8 0x77) :: mem (boot []))).
Proof.
  apply (recv_zero_length_wraps ilp32_le 4096 0x77 [] (boot [])).
  - cbn. lia.
  - unfold NULL. lia.
  - reflexivity.
Defined.

(** ** Register access, interrupts and lifecycle beyond the claims *)

Lemma hi8_div (x : Z) : hi8 x = (x / 256) mod 256.
Proof.
  unfold hi8. change (Z.land (Z.shiftr x 8) 255) with (lo8 (Z.shiftr x 8)).
  rewrite lo8_mod. now rewrite Z.shiftr_div_pow2 by lia.
Qed.

Lemma u16_bytes (val : Z) :
  hi8 (u16 val) = (val / 256) mod 256 /\ lo8 (u16 val) = val mod 256.
Proof.
  rewrite hi8_div, lo8_mod. unfold u16.
  split; Z.to_euclidean_division_equations; lia.
Qed.

Lemma bytes_of_u16 (val : Z) :
  0 <= val < 65536 -> val = 256 * hi8 val + lo8 val.
Proof.
  intros H. rewrite hi8_div, lo8_mod.
  rewrite (Z.mod_small (val / 256)).
  - apply Z.div_mod. lia.
  - split; [apply Z.div_pos; lia | apply Z.div_lt_upper_bound; lia].
Qed.

Lemma lor_u16_range (a b : Z) :
  0 <= a < 65536 -> 0 <= b < 65536 -> 0 <= Z.lor a b < 65536.
Proof.
  intros Ha Hb. split; [apply Z.lor_nonneg; lia|].
  destruct (Z.eq_dec (Z.lor a b) 0) as [->|Hnz]; [lia|].
  change 65536 with (2 ^ 16). apply Z.log2_lt_pow2.
  - assert (0 <= Z.lor a b) by (apply Z.lor_nonneg; lia). lia.
  - rewrite Z.log2_lor by lia.
    apply Z.max_lub_lt.
    + destruct (Z.eq_dec a 0) as [->|]; [cbn; lia|].
      apply Z.log2_lt_pow2; [lia | cbn; lia].
    + destruct (Z.eq_dec b 0) as [->|]; [cbn; lia|].
      apply Z.log2_lt_pow2; [lia | cbn; lia].
Qed.

Lemma land_u16_range (a x : Z) :
  0 <= a < 65536 -> 0 <= Z.land a x < 65536.
Proof.
  intros Ha. assert (Hnn : 0 <= Z.land a x) by (apply Z.land_nonneg; lia).
  split; [exact Hnn|].
  destruct (Z.lt_ge_cases (Z.land a x) 65536) as [|Hge]; [assumption|exfalso].
  assert (Hbit : Z.testbit (Z.land a x) (Z.log2 (Z.land a x)) = true)
    by (apply Z.bit_log2; lia).
  assert (Hlog : 16 <= Z.log2 (Z.land a x))
    by (apply Z.log2_le_pow2; [lia | exact Hge]).
  assert (Hhigh : forall n, 16 <= n -> Z.testbit a n = false).
  { intros n Hn. rewrite <- (Z.mod_small a (2 ^ 16)) by (change (2 ^ 16) with 65536; lia).
    apply Z.mod_pow2_bits_high. lia. }
  rewrite Z.land_spec, (Hhigh _ Hlog) in Hbit.
  discriminate Hbit.
Qed.

Section Registers.

Variable P : platform.

Ltac drv_step :=
  first [ rewrite write_command_spec
        | rewrite write_register_spec
        | rewrite read_register_spec ];
  cbv beta iota zeta;
  rewrite ?chip_after_bus, ?after_bus_after_bus.

Ltac drv_open :=
  unfold bind, ret, qca7k_spi_begin, qca7k_spi_end;
  cbv beta iota zeta;
  rewrite ?emit_after_bus, ?chip_after_bus, ?after_bus_after_bus.

(** One register read: [qca7k_spi_begin], read command, two bytes in,
    [qca7k_spi_end]. *)
Lemma register_read_run (reg : Z) (A : Type) (k : Z -> M A) (w : world) :
  In reg [QCA7K_REG_WRBUF_SPC_AVA; QCA7K_REG_RDBUF_BYTE_AVA; QCA7K_REG_SPI_CONFIG;
          QCA7K_REG_INTR_CAUSE; QCA7K_REG_INTR_ENABLE; QCA7K_REG_SIGNATURE] ->
  (qca7k_spi_begin ;;
   qca7k_write_command P true true reg ;;
   res <- qca7k_read_register P ;;
   qca7k_spi_end ;;
   k res) w =
  (let '(b0, b1, rest) := chip_read2 (chip w) in
   k (reg_value P b0 b1) (after_bus rest (reg_read_txn reg b0 b1) w)).
Proof.
  intros Hreg. drv_open. drv_step. drv_open. drv_step.
  destruct (chip_read2 (chip w)) as [[b0 b1] rest]. drv_open.
  rewrite command_word_read_internal by exact Hreg.
  reflexivity.
Qed.

(** One register write: [qca7k_spi_begin], write command, two bytes out,
    [qca7k_spi_end]. *)
Lemma register_write_run (reg val : Z) (A : Type) (k : M A) (w : world) :
  In reg [QCA7K_REG_BFR_SIZE; QCA7K_REG_SPI_CONFIG;
          QCA7K_REG_INTR_CAUSE; QCA7K_REG_INTR_ENABLE] ->
  0 <= val < 65536 ->
  (qca7k_spi_begin ;;
   qca7k_write_command P false true reg ;;
   qca7k_write_register P val ;;
   qca7k_spi_end ;;
   k) w =
  k (after_bus (chip w) (reg_write_txn reg val) w).
Proof.
  intros Hreg Hval. drv_open. do 2 (drv_step; drv_open).
  rewrite command_word_write_internal by exact Hreg.
  rewrite (u16_small val) by exact Hval.
  reflexivity.
Qed.

(** X1. [qca7k_write_register] puts the more significant byte of the 16-bit
    value on the bus first, then the less significant one, whatever the
    byte order of the host. *)
Theorem write_register_high_byte_first (val : Z) (w : world) :
  qca7k_write_register P val w =
  (tt, after_bus (chip w) [MOSI ((val / 256) mod 256); MOSI (val mod 256)] w).
Proof.
  rewrite write_register_spec.
  destruct (u16_bytes val) as [-> ->]. reflexivity.
Qed.

(** X2. Reading back, with [qca7k_read_register], the two bytes that
    [qca7k_write_register] sent for [val] gives [val] on a big-endian host
    and [val] with its two bytes exchanged on a little-endian host. *)
Theorem read_back_written_register (val : Z) (w : world) :
  0 <= val < 65536 ->
  fst (qca7k_read_register P
         (with_chip
            (mosi_bytes (trace (snd (qca7k_write_register P val (boot [])))))
            w)) =
  if host_le P then 256 * (val mod 256) + val / 256 else val.
Proof.
  intros Hval. rewrite write_register_spec, read_register_spec.
  cbn [snd after_bus trace boot app mosi_bytes with_chip chip].
  unfold chip_read2, chip_read.
  rewrite (u16_small val) by exact Hval.
  rewrite (u8_small (hi8 val)) by apply hi8_range.
  rewrite (u8_small (lo8 val)) by apply lo8_range.
  cbn [fst]. unfold reg_value.
  pose proof (bytes_of_u16 val Hval) as Hsplit.
  rewrite hi8_div, lo8_mod in *.
  rewrite (Z.mod_small (val / 256)) in *
    by (split; [apply Z.div_pos; lia | apply Z.div_lt_upper_bound; lia]).
  destruct (host_le P); lia.
Qed.

(** X5. For an external command ([in] false) the register argument is
    ignored: the two command bytes are 80 00 for a read and 00 00 for a
    write, for every [reg]. *)
Theorem write_command_external_ignores_reg (rw : bool) (reg : Z) (w : world) :
  qca7k_write_command P rw false reg w =
  (tt, after_bus (chip w) [MOSI (if rw then 0x80 else 0x00); MOSI 0x00] w).
Proof.
  rewrite write_command_spec, command_word_external. destruct rw; reflexivity.
Qed.

(** X6. [qca7k_interrupts_get] and [qca7k_signature] each make one read
    transaction, of the interrupt-enable and of the signature register, and
    return the value read; nothing is written beyond the command word. *)
Theorem register_getters_read_once (w : world) :
  let '(b0, b1, rest) := chip_read2 (chip w) in
  qca7k_interrupts_get P w =
    (reg_value P b0 b1,
     after_bus rest (reg_read_txn QCA7K_REG_INTR_ENABLE b0 b1) w) /\
  qca7k_signature P w =
    (reg_value P b0 b1,
     after_bus rest (reg_read_txn QCA7K_REG_SIGNATURE b0 b1) w).
Proof.
  unfold qca7k_interrupts_get, qca7k_signature.
  rewrite !(register_read_run _ _ (fun res => ret res)) by (cbn [In]; auto 10).
  destruct (chip_read2 (chip w)) as [[b0 b1] rest]. split; reflexivity.
Qed.

(** X7. [qca7k_interrupts_enable_all] writes 0x0047 (bits 6, 2, 1 and 0) to
    the interrupt-enable register and [qca7k_interrupts_disable_all] writes
    0x0000, each in a single write transaction without reading the
    register. *)
Theorem interrupts_all_write_once (w : world) :
  qca7k_interrupts_enable_all P w =
    (tt, after_bus (chip w) (reg_write_txn QCA7K_REG_INTR_ENABLE 0x0047) w) /\
  qca7k_interrupts_disable_all P w =
    (tt, after_bus (chip w) (reg_write_txn QCA7K_REG_INTR_ENABLE 0x0000) w).
Proof.
  unfold qca7k_interrupts_enable_all, qca7k_interrupts_disable_all.
  rewrite !interrupts_set_spec. split; reflexivity.
Qed.

(** X8. [qca7k_interrupts_enable] is a read-modify-write: it reads the
    interrupt-enable register and writes back the value read or-ed with the
    mask, so no interrupt that was enabled is disabled. *)
Theorem interrupts_enable_read_modify_write (mask : Z) (w : world) :
  let '(b0, b1, rest) := chip_read2 (chip w) in
  qca7k_interrupts_enable P mask w =
  (tt,
   after_bus rest
     (reg_read_txn QCA7K_REG_INTR_ENABLE b0 b1
      ++ reg_write_txn QCA7K_REG_INTR_ENABLE
           (Z.lor (reg_value P b0 b1) (mask mod 65536))) w).
Proof.
  unfold qca7k_interrupts_enable, qca7k_interrupts_get.
  unfold bind at 1.
  rewrite (register_read_run _ _ (fun res => ret res)) by (cbn [In]; auto 10).
  destruct (chip_read2 (chip w)) as [[b0 b1] rest] eqn:Hchip.
  destruct (chip_read2_range _ _ _ _ Hchip) as [H0 H1].
  unfold ret. rewrite interrupts_set_spec, chip_after_bus, after_bus_after_bus.
  rewrite u16_small
    by (apply lor_u16_range; [now apply reg_value_range | apply u16_range]).
  reflexivity.
Qed.

(** X9. [qca7k_interrupts_disable] is a read-modify-write: it reads the
    interrupt-enable register and writes back the value read with the bits
    of the mask cleared and every other bit as it was. *)
Theorem interrupts_disable_read_modify_write (mask : Z) (w : world) :
  let '(b0, b1, rest) := chip_read2 (chip w) in
  qca7k_interrupts_disable P mask w =
  (tt,
   after_bus rest
     (reg_read_txn QCA7K_REG_INTR_ENABLE b0 b1
      ++ reg_write_txn QCA7K_REG_INTR_ENABLE
           (Z.land (reg_value P b0 b1) (Z.lnot (mask mod 65536)))) w).
Proof.
  unfold qca7k_interrupts_disable, qca7k_interrupts_get.
  unfold bind at 1.
  rewrite (register_read_run _ _ (fun res => ret res)) by (cbn [In]; auto 10).
  destruct (chip_read2 (chip w)) as [[b0 b1] rest] eqn:Hchip.
  destruct (chip_read2_range _ _ _ _ Hchip) as [H0 H1].
  unfold ret. rewrite interrupts_set_spec, chip_after_bus, after_bus_after_bus.
  rewrite u16_small by (apply land_u16_range; now apply reg_value_range).
  reflexivity.
Qed.

(** X10. [qca7k_startup] reads the signature register twice and looks only
    at the second value.  If it is 0xAA55 the call enables all interrupts
    (one write of 0x0047) and returns [QCA7K_OK]; otherwise it returns
    [QCA7K_BAD_SIGNATURE] and writes no register. *)
Theorem startup_checks_second_signature (w : world) :
  let '(a0, a1, pending) := chip_read2 (chip w) in
  let '(b0, b1, rest) := chip_read2 pending in
  qca7k_startup P w =
  if reg_value P b0 b1 =? QCA7K_SIGNATURE then
    (QCA7K_OK,
     after_bus rest
       (reg_read_txn QCA7K_REG_SIGNATURE a0 a1
        ++ reg_read_txn QCA7K_REG_SIGNATURE b0 b1
        ++ reg_write_txn QCA7K_REG_INTR_ENABLE 0x0047) w)
  else
    (QCA7K_BAD_SIGNATURE,
     after_bus rest
       (reg_read_txn QCA7K_REG_SIGNATURE a0 a1
        ++ reg_read_txn QCA7K_REG_SIGNATURE b0 b1) w).
Proof.
  unfold qca7k_startup, qca7k_signature.
  unfold bind at 1.
  rewrite (register_read_run _ _ (fun res => ret res)) by (cbn [In]; auto 10).
  destruct (chip_read2 (chip w)) as [[a0 a1] pending].
  unfold ret at 1. unfold bind at 1.
  rewrite (register_read_run _ _ (fun res => ret res)) by (cbn [In]; auto 10).
  rewrite chip_after_bus.
  destruct (chip_read2 pending) as [[b0 b1] rest].
  unfold ret at 1. rewrite after_bus_after_bus.
  destruct (reg_value P b0 b1 =? QCA7K_SIGNATURE); cbn [negb].
  - unfold bind, qca7k_interrupts_enable_all. rewrite interrupts_set_spec.
    unfold ret. rewrite chip_after_bus, after_bus_after_bus, <- app_assoc.
    reflexivity.
  - reflexivity.
Qed.

(** X11. [qca7k_reset] is a read-modify-write of the SPI configuration
    register: it writes back the value read with bit 6 set, leaving the
    other bits as they were. *)
Theorem reset_sets_bit6_only (w : world) :
  let '(b0, b1, rest) := chip_read2 (chip w) in
  qca7k_reset P w =
  (tt,
   after_bus rest
     (reg_read_txn QCA7K_REG_SPI_CONFIG b0 b1
      ++ reg_write_txn QCA7K_REG_SPI_CONFIG (Z.lor (reg_value P b0 b1) 0x40)) w).
Proof.
  unfold qca7k_reset.
  rewrite (register_read_run QCA7K_REG_SPI_CONFIG unit
             (fun config =>
                qca7k_spi_begin ;;
                qca7k_write_command P false true QCA7K_REG_SPI_CONFIG ;;
                qca7k_write_register P (Z.lor config QCA7K_SLAVE_RESET_BIT) ;;
                qca7k_spi_end))
    by (cbn [In]; auto 10).
  destruct (chip_read2 (chip w)) as [[b0 b1] rest] eqn:Hchip.
  destruct (chip_read2_range _ _ _ _ Hchip) as [H0 H1].
  pose proof (reg_value_range P b0 b1 H0 H1) as Hv.
  drv_open. do 2 (drv_step; drv_open).
  rewrite command_word_write_internal by (cbn [In]; auto 10).
  change QCA7K_SLAVE_RESET_BIT with 0x40.
  rewrite u16_small by (apply lor_u16_range; lia).
  reflexivity.
Qed.

End Registers.

(** ** The transmitter beyond the claims *)

Section Transmit.

Variable P : platform.

(** X12. An admitted frame.  For a payload of bytes no longer than
    [QCA7K_FRAME_MAX] and enough reported space, [qca7k_send] returns
    [QCA7K_OK] after three transactions: the space check, the write of
    4 + 2 + 2 + max(size, 60) + 2 to the buffer-size register, and one
    external write that carries four SOF bytes, two zero bytes, the payload
    followed by zeros up to 60 bytes, and two EOF bytes. *)
Theorem send_streams_padded_payload (data : list Z) (w : world)
                                    (b0 b1 : Z) (rest : list Z) :
  Forall (fun b => 0 <= b < 256) data ->
  Z.of_nat (length data) <= QCA7K_FRAME_MAX ->
  chip_read2 (chip w) = (b0, b1, rest) ->
  wire_size (Z.of_nat (length data)) <= reg_value P b0 b1 ->
  qca7k_send P data (Z.of_nat (length data)) w =
  (QCA7K_OK,
   after_bus rest
     (reg_read_txn QCA7K_REG_WRBUF_SPC_AVA b0 b1
      ++ reg_write_txn QCA7K_REG_BFR_SIZE (wire_size (Z.of_nat (length data)))
      ++ [CS_low; MOSI 0x00; MOSI 0x00]
      ++ map MOSI ([0xAA; 0xAA; 0xAA; 0xAA; 0x00; 0x00]
                   ++ padded data ++ [0x55; 0x55])
      ++ [CS_high]) w).
Proof.
  intros Hbytes Hlen Hchip Hspace.
  rewrite (send_wire P data _ w b0 b1 rest) by (try assumption; lia).
  now rewrite sent_payload_padded.
Qed.

(** X13. The value [qca7k_send] returns is decided by two comparisons:
    [QCA7K_FRAME_OVERFLOW] when [size] exceeds 1522; otherwise
    [QCA7K_WRITE_BUFFER_INSUFFICIENT] when the space read from the chip is
    below 4 + 2 + 2 + max(size, 60) + 2; otherwise, also when the space is
    exactly that number, [QCA7K_OK]. *)
Theorem send_result_code (data : list Z) (size : Z) (w : world)
                         (b0 b1 : Z) (rest : list Z) :
  0 <= size ->
  chip_read2 (chip w) = (b0, b1, rest) ->
  fst (qca7k_send P data size w) =
  if QCA7K_FRAME_MAX <? size then QCA7K_FRAME_OVERFLOW
  else if reg_value P b0 b1 <? wire_size size
       then QCA7K_WRITE_BUFFER_INSUFFICIENT
       else QCA7K_OK.
Proof.
  intros Hsize Hchip.
  destruct (Z.ltb_spec QCA7K_FRAME_MAX size) as [Hover|Hfit].
  - unfold qca7k_send.
    destruct (Z.ltb_spec QCA7K_FRAME_MAX size); [reflexivity | lia].
  - destruct (Z.ltb_spec (reg_value P b0 b1) (wire_size size)) as [Hlow|Hroom].
    + unfold qca7k_send.
      destruct (Z.ltb_spec QCA7K_FRAME_MAX size); [lia|].
      rewrite size_to_write_max.
      unfold bind, ret, qca7k_spi_begin, qca7k_spi_end. cbv beta iota zeta.
      rewrite write_command_spec. cbv beta iota zeta.
      rewrite read_register_spec, !chip_after_bus. cbn [emit chip].
      rewrite Hchip. cbv beta iota zeta.
      unfold wire_size in Hlow.
      destruct (Z.ltb_spec (reg_value P b0 b1)
                  (4 + 2 + 2 + Z.max size QCA7K_FRAME_MIN + 2)); [reflexivity | lia].
    + rewrite (send_wire P data size w b0 b1 rest) by (try assumption; lia).
      reflexivity.
Qed.

End Transmit.

(** ** The receiver beyond the claims *)

Section Scanning.

Variable P : platform.
Hypothesis H16 : 16 <= size_bits P.

(** A pass that reads is the read followed by [pass_on]. *)
Lemma loop_body_read (i : Z) (w : world) :
  loop_body P i false w =
  (let (b, rest) := chip_read (chip w) in
   let '(d, c', m') := pass_on P b (ctx w) (mem w) in
   (if d then Goto_done else Next i false,
    mk_world rest (trace w ++ [MISO b]) c' b m')).
Proof.
  unfold pass_on, loop_body, accept, end_of_stage, bind, ret, get_v, get_ctx,
    put_ctx, put_v, store, qca7k_reset_state_machine, qca7k_spi_read.
  destruct w as [pending tr [st origin ptr left expected fl] v m].
  cbn [negb chip]. destruct (chip_read pending) as [b rest].
  destruct st; cbn;
    repeat match goal with
           | |- context [if ?c then _ else _] => destruct c; cbn
           end; reflexivity.
Qed.

Lemma last_cons_default {A : Type} (b d : A) (l : list A) :
  last (b :: l) d = last l b.
Proof.
  revert b d. induction l as [|x l IH]; intros b d; [reflexivity|].
  change (last (b :: x :: l) d) with (last (x :: l) d).
  now rewrite (IH x d), (IH x b).
Qed.

Lemma skipn_chip_read (pending rest : list Z) (b : Z) (k : nat) :
  chip_read pending = (b, rest) -> skipn (S k) pending = skipn k rest.
Proof.
  destruct pending; cbn; intros [= <- <-]; [now rewrite skipn_nil | reflexivity].
Qed.

(** The scan loop is [feed] over the bytes it is allowed to read. *)
Lemma scan_feed (n fuel : nat) (bytes_available i : Z) (w : world) :
  0 <= i -> bytes_available < 65536 ->
  n = Z.to_nat (bytes_available - i) ->
  (n < fuel)%nat ->
  scan P fuel bytes_available i false w =
  (let bytes := deliver n (chip w) in
   let '(d, k, c', m') := feed P bytes (ctx w) (mem w) in
   Some (mk_world (skipn k (chip w)) (trace w ++ map MISO (firstn k bytes)) c'
           (last (firstn k bytes) (recv_v w)) m')).
Proof.
  revert fuel i w. induction n as [|n IH]; intros fuel i w Hi Hb Hn Hfuel;
    (destruct fuel as [|fuel]; [lia|]); rewrite scan_unfold.
  - destruct (Z.ltb_spec i bytes_available); [lia|].
    destruct w. cbn. now rewrite app_nil_r.
  - destruct (Z.ltb_spec i bytes_available); [|lia].
    rewrite loop_body_read. cbn [deliver].
    destruct (chip_read (chip w)) as [b rest] eqn:Hread. cbn [feed].
    destruct (pass_on P b (ctx w) (mem w)) as [[d c'] m'].
    destruct d.
    + rewrite (skipn_chip_read _ _ _ 0 Hread). reflexivity.
    + rewrite usize_small by lia.
      rewrite (IH fuel (i + 1)) by lia.
      cbn [chip ctx mem trace recv_v].
      destruct (feed P (deliver n rest) c' m') as [[[d' k] c''] m''].
      rewrite (skipn_chip_read _ _ _ k Hread).
      cbn [firstn map]. rewrite last_cons_default, <- app_assoc.
      reflexivity.
Qed.

Lemma with_ctx_same (w : world) : with_ctx (ctx w) w = w.
Proof. now destruct w. Qed.

(** [qca7k_recv] with a buffer is the rest of the call on the entry
    context. *)
Lemma recv_entry_ctx (data : Z) (w : world) :
  data <> NULL ->
  qca7k_recv P data w = recv_available P (with_ctx (entry_ctx data (ctx w)) w).
Proof.
  intros Hdata. apply Z.eqb_neq in Hdata.
  unfold qca7k_recv, entry_ctx, bind, get_ctx, qca7k_reset_state_machine,
    put_ctx, ret.
  rewrite Hdata. destruct (needs_reset data (ctx w)); [reflexivity|].
  now rewrite with_ctx_same.
Qed.

(** A call that finds bytes to read, in terms of [feed]. *)
Lemma recv_feed (data : Z) (w : world) (b0 b1 : Z) (rest : list Z) :
  data <> NULL ->
  chip_read2 (chip w) = (b0, b1, rest) ->
  reg_value P b0 b1 <> 0 ->
  qca7k_recv P data w =
  (let bytes := deliver (Z.to_nat (reg_value P b0 b1)) rest in
   let '(d, k, c', m') := feed P bytes (entry_ctx data (ctx w)) (mem w) in
   Some (g_state c',
         mk_world (skipn k rest)
           (trace w ++ reg_read_txn QCA7K_REG_RDBUF_BYTE_AVA b0 b1
            ++ external_read_txn (firstn k bytes))
           c' (last (firstn k bytes) (recv_v w)) m')).
Proof.
  intros Hdata Hchip Hn.
  destruct (chip_read2_range _ _ _ _ Hchip) as [H0 H1].
  pose proof (reg_value_range P b0 b1 H0 H1) as Hv.
  rewrite recv_entry_ctx by exact Hdata.
  rewrite (recv_available_scan P _ b0 b1 rest) by assumption.
  rewrite (scan_feed (Z.to_nat (reg_value P b0 b1)))
    by (unfold scan_fuel; lia).
  cbn [after_bus chip ctx mem trace recv_v with_ctx].
  destruct (feed P _ _ _) as [[[d k] c'] m'].
  cbn [emit ctx chip trace recv_v mem]. unfold external_read_txn.
  rewrite <- !app_assoc. reflexivity.
Qed.

(** What the chip has to deliver for the host to read [n]. *)
Lemma reg_bytes_read (n : Z) (pending : list Z) :
  0 <= n < 65536 ->
  exists b0 b1,
    chip_read2 (reg_bytes P n ++ pending) = (b0, b1, pending) /\
    reg_value P b0 b1 = n.
Proof.
  intros Hn. pose proof (bytes_of_u16 n Hn) as Hsplit.
  pose proof (hi8_range n). pose proof (lo8_range n).
  unfold reg_bytes, reg_value, chip_read2.
  destruct (host_le P); cbn [app chip_read];
    rewrite !u8_small by assumption; eexists; eexists; (split; [reflexivity | lia]).
Qed.

Lemma deliver_app (l rest : list Z) (m : nat) :
  Forall is_byte l ->
  deliver (length l + m) (l ++ rest) = l ++ deliver m rest.
Proof.
  induction 1 as [|b l Hb Hl IH]; [reflexivity|].
  cbn [length Nat.add app deliver chip_read].
  now rewrite u8_small, IH by exact Hb.
Qed.

Lemma deliver_exact (l rest : list Z) :
  Forall is_byte l -> deliver (length l) (l ++ rest) = l.
Proof.
  intros Hl. rewrite <- (Nat.add_0_r (length l)), deliver_app by exact Hl.
  apply app_nil_r.
Qed.

Lemma feed_app (bytes1 bytes2 : list Z) (c : recv_ctx) (m : list (Z * Z)) :
  feed P (bytes1 ++ bytes2) c m =
  (let '(d, k, c', m') := feed P bytes1 c m in
   if d then (true, k, c', m')
   else let '(d2, k2, c2, m2) := feed P bytes2 c' m' in
        (d2, (k + k2)%nat, c2, m2)).
Proof.
  revert c m. induction bytes1 as [|b bs IH]; intros c m; cbn [app feed].
  - now destruct (feed P bytes2 c m) as [[[d k] c'] m'].
  - destruct (pass_on P b c m) as [[d c'] m']. destruct d; [reflexivity|].
    rewrite IH. destruct (feed P bs c' m') as [[[d k] c''] m''].
    destruct d; [reflexivity|].
    now destruct (feed P bytes2 c'' m'') as [[[d2 k2] c2] m2].
Qed.

Lemma feed_count (bytes : list Z) (c : recv_ctx) (m : list (Z * Z)) :
  let '(d, k, _, _) := feed P bytes c m in
  (k <= length bytes)%nat /\ (d = false -> k = length bytes).
Proof.
  revert c m. induction bytes as [|b bs IH]; intros c m; cbn [feed length].
  - split; [lia | reflexivity].
  - destruct (pass_on P b c m) as [[d c'] m']. destruct d.
    + split; [lia | discriminate].
    + specialize (IH c' m'). destruct (feed P bs c' m') as [[[d k] c''] m''].
      destruct IH as [Hle Hall]. split; [lia | intros Hd; now rewrite Hall].
Qed.

Ltac pass_open :=
  unfold pass_on, loop_body, accept, end_of_stage, bind, ret, get_v, get_ctx,
    put_ctx, put_v, store, qca7k_reset_state_machine;
  cbn [negb ctx recv_v mem with_ctx with_v g_state g_recv_buf_origin
       g_recv_buf_ptr g_state_bytes_left g_expected_byte g_fl fresh_ctx
       set_state set_ptr set_bytes_left set_expected set_fl is_done
       state_eqb state_code Z.eqb Pos.eqb].

(** A pass from a reading state keeps the buffer binding; it either stays
    in a reading state or leaves the loop with [QCA7K_OK]. *)
Lemma pass_reading (b : Z) (c : recv_ctx) (m : list (Z * Z)) :
  is_reading (g_state c) = true ->
  let '(d, c', _) := pass_on P b c m in
  g_recv_buf_origin c' = g_recv_buf_origin c /\
  (if d then g_state c' = QCA7K_OK else is_reading (g_state c') = true).
Proof.
  destruct c as [st origin ptr left expected fl].
  destruct st; cbn [is_reading g_state]; intros Hst; try discriminate Hst;
    pass_open;
    repeat match goal with
           | |- context [if ?c then _ else _] => destruct c; pass_open
           end; cbn; auto.
Qed.

(** A pass that leaves the loop leaves a terminal state behind. *)
Lemma pass_done_terminal (b : Z) (c : recv_ctx) (m : list (Z * Z)) :
  let '(d, c', _) := pass_on P b c m in
  d = true -> g_state c' = QCA7K_OK \/ g_state c' = QCA7K_INTERNAL_ERROR.
Proof.
  destruct c as [st origin ptr left expected fl].
  destruct st; pass_open;
    repeat match goal with
           | |- context [if ?c then _ else _] => destruct c; pass_open
           end; cbn; auto; discriminate.
Qed.

(** A byte other than the expected one in a sentinel state: back to a
    fresh context on the same buffer, nothing stored. *)
Lemma pass_mismatch (b : Z) (c : recv_ctx) (m : list (Z * Z)) :
  g_state c = QCA7K_READING_SOF \/ g_state c = QCA7K_READING_RESERVED \/
  g_state c = QCA7K_READING_EOF ->
  g_expected_byte c <> b ->
  pass_on P b c m = (false, fresh_ctx (g_recv_buf_origin c), m).
Proof.
  destruct c as [st origin ptr left expected fl]. cbn [g_state g_expected_byte].
  intros Hst Hneq. apply Z.eqb_neq in Hneq.
  destruct Hst as [-> | [-> | ->]]; pass_open; rewrite Hneq; reflexivity.
Qed.

(** The expected byte in a sentinel state with more to come. *)
Lemma pass_sentinel_more (b : Z) (c : recv_ctx) (m : list (Z * Z)) :
  g_state c = QCA7K_READING_SOF \/ g_state c = QCA7K_READING_RESERVED \/
  g_state c = QCA7K_READING_EOF ->
  g_expected_byte c = b ->
  2 <= g_state_bytes_left c < 65536 ->
  pass_on P b c m = (false, set_bytes_left (g_state_bytes_left c - 1) c, m).
Proof.
  destruct c as [st origin ptr left expected fl].
  cbn [g_state g_expected_byte g_state_bytes_left].
  intros Hst <- Hleft.
  assert (Hnz : (left - 1 =? 0) = false) by (apply Z.eqb_neq; lia).
  destruct Hst as [-> | [-> | ->]]; pass_open;
    rewrite Z.eqb_refl; pass_open; rewrite usize_small, Hnz by lia; reflexivity.
Qed.

Lemma pass_sof_last (b : Z) (c : recv_ctx) (m : list (Z * Z)) :
  g_state c = QCA7K_READING_SOF ->
  g_expected_byte c = b ->
  g_state_bytes_left c = 1 ->
  pass_on P b c m =
  (false,
   mk_ctx QCA7K_READING_FL (g_recv_buf_origin c) (g_recv_buf_ptr c) 2
          (g_expected_byte c) (g_fl c), m).
Proof.
  destruct c as [st origin ptr left expected fl].
  cbn [g_state g_expected_byte g_state_bytes_left]. intros -> <- ->.
  pass_open. rewrite Z.eqb_refl. pass_open.
  rewrite usize_small by lia. reflexivity.
Qed.

Lemma pass_reserved_last (b : Z) (c : recv_ctx) (m : list (Z * Z)) :
  g_state c = QCA7K_READING_RESERVED ->
  g_expected_byte c = b ->
  g_state_bytes_left c = 1 ->
  0 <= g_fl c < 65536 ->
  pass_on P b c m =
  (false,
   mk_ctx QCA7K_READING_FRAME (g_recv_buf_origin c) (g_recv_buf_origin c)
          (g_fl c) (g_expected_byte c) (g_fl c), m).
Proof.
  destruct c as [st origin ptr left expected fl].
  cbn [g_state g_expected_byte g_state_bytes_left g_fl]. intros -> <- -> Hfl.
  pass_open. rewrite Z.eqb_refl. pass_open.
  rewrite usize_small by lia. cbn. rewrite usize_small by lia. reflexivity.
Qed.

Lemma pass_eof_last (b : Z) (c : recv_ctx) (m : list (Z * Z)) :
  g_state c = QCA7K_READING_EOF ->
  g_expected_byte c = b ->
  g_state_bytes_left c = 1 ->
  pass_on P b c m =
  (true,
   mk_ctx QCA7K_OK (g_recv_buf_origin c) (g_recv_buf_origin c) 4 QCA7K_SOF 0,
   m).
Proof.
  destruct c as [st origin ptr left expected fl].
  cbn [g_state g_expected_byte g_state_bytes_left]. intros -> <- ->.
  pass_open. rewrite Z.eqb_refl. pass_open.
  rewrite usize_small by lia. reflexivity.
Qed.

(** The accumulator after a length byte: the old value moves up by eight
    bits and the byte comes in below. *)
Lemma length_accumulate (fl b : Z) :
  0 <= fl < 256 -> is_byte b ->
  u16 (Z.lor (u16 (shl_promoted P fl 8)) b) = 256 * fl + b.
Proof.
  intros Hfl Hb. unfold is_byte in Hb.
  rewrite shl8_byte by lia.
  rewrite (u16_small (Z.shiftl fl 8)) by now apply shiftl8_range.
  rewrite Z.lor_comm, lor_low_shiftl by (cbn; lia).
  change (2 ^ 8) with 256. rewrite u16_small by lia. lia.
Qed.

Lemma pass_fl_more (b : Z) (c : recv_ctx) (m : list (Z * Z)) :
  g_state c = QCA7K_READING_FL ->
  2 <= g_state_bytes_left c < 65536 ->
  0 <= g_fl c < 256 -> is_byte b ->
  pass_on P b c m =
  (false, set_bytes_left (g_state_bytes_left c - 1) (set_fl (256 * g_fl c + b) c), m).
Proof.
  destruct c as [st origin ptr left expected fl].
  cbn [g_state g_state_bytes_left g_fl]. intros -> Hleft Hfl Hb.
  assert (Hnz : (left - 1 =? 0) = false) by (apply Z.eqb_neq; lia).
  pass_open. rewrite length_accumulate by assumption.
  rewrite usize_small, Hnz by lia. reflexivity.
Qed.

Lemma pass_fl_last (b : Z) (c : recv_ctx) (m : list (Z * Z)) :
  g_state c = QCA7K_READING_FL ->
  g_state_bytes_left c = 1 ->
  0 <= g_fl c < 256 -> is_byte b ->
  pass_on P b c m =
  (false,
   mk_ctx QCA7K_READING_RESERVED (g_recv_buf_origin c) (g_recv_buf_ptr c) 2
          QCA7K_RESERVED (256 * g_fl c + b), m).
Proof.
  destruct c as [st origin ptr left expected fl].
  cbn [g_state g_state_bytes_left g_fl]. intros -> -> Hfl Hb.
  pass_open. rewrite length_accumulate by assumption.
  rewrite usize_small by lia. reflexivity.
Qed.

Lemma pass_frame_more (b : Z) (c : recv_ctx) (m : list (Z * Z)) :
  g_state c = QCA7K_READING_FRAME ->
  2 <= g_state_bytes_left c < 65536 ->
  pass_on P b c m =
  (false,
   set_bytes_left (g_state_bytes_left c - 1) (set_ptr (g_recv_buf_ptr c + 1) c),
   (g_recv_buf_ptr c, b) :: m).
Proof.
  destruct c as [st origin ptr left expected fl].
  cbn [g_state g_state_bytes_left g_recv_buf_ptr]. intros -> Hleft.
  assert (Hnz : (left - 1 =? 0) = false) by (apply Z.eqb_neq; lia).
  pass_open. rewrite usize_small, Hnz by lia. reflexivity.
Qed.

Lemma pass_frame_last (b : Z) (c : recv_ctx) (m : list (Z * Z)) :
  g_state c = QCA7K_READING_FRAME ->
  g_state_bytes_left c = 1 ->
  pass_on P b c m =
  (false,
   mk_ctx QCA7K_READING_EOF (g_recv_buf_origin c) (g_recv_buf_ptr c + 1) 2
          QCA7K_EOF (g_fl c),
   (g_recv_buf_ptr c, b) :: m).
Proof.
  destruct c as [st origin ptr left expected fl].
  cbn [g_state g_state_bytes_left g_recv_buf_ptr]. intros -> ->.
  pass_open. rewrite usize_small by lia. reflexivity.
Qed.

Ltac ctx_norm :=
  cbn [g_state g_recv_buf_origin g_recv_buf_ptr g_state_bytes_left
       g_expected_byte g_fl fresh_ctx set_state set_ptr set_bytes_left
       set_expected set_fl Z.sub Z.add Z.opp Z.pos_sub Z.succ_double
       Z.pred_double Z.double Pos.pred_double Pos.add Pos.succ].

Ltac pass_side := ctx_norm; first [reflexivity | lia | tauto | assumption].

Ltac feed_pass :=
  cbn [feed app];
  first [ rewrite pass_sentinel_more by pass_side
        | rewrite pass_sof_last by pass_side
        | rewrite pass_reserved_last by pass_side
        | rewrite pass_eof_last by pass_side
        | rewrite pass_fl_more by pass_side
        | rewrite pass_fl_last by pass_side ];
  ctx_norm.

(** SOF, two length bytes and the two reserved bytes, from a fresh context:
    the length is the first byte times 256 plus the second, and that many
    bytes are expected for the frame. *)
Lemma feed_header (hi lo data : Z) (m : list (Z * Z)) :
  is_byte hi -> is_byte lo ->
  feed P [0xAA; 0xAA; 0xAA; 0xAA; hi; lo; 0x00; 0x00] (fresh_ctx data) m =
  (false, 8%nat,
   mk_ctx QCA7K_READING_FRAME data data (256 * hi + lo) QCA7K_RESERVED
          (256 * hi + lo), m).
Proof.
  intros Hhi Hlo. unfold is_byte in *.
  do 8 feed_pass.
  replace (256 * (256 * 0 + hi) + lo) with (256 * hi + lo) by lia.
  reflexivity.
Qed.

Lemma feed_cons (b : Z) (bs : list Z) (c : recv_ctx) (m : list (Z * Z)) :
  feed P (b :: bs) c m =
  (let '(d, c', m') := pass_on P b c m in
   if d then (true, 1%nat, c', m')
   else let '(d', k, c'', m'') := feed P bs c' m' in (d', S k, c'', m'')).
Proof. reflexivity. Qed.

(** The frame bytes, when as many arrive as the length announced: all are
    stored from the cursor on and the EOF stage begins. *)
Lemma feed_frame_bytes (bs : list Z) (c : recv_ctx) (m : list (Z * Z)) :
  g_state c = QCA7K_READING_FRAME ->
  bs <> [] ->
  g_state_bytes_left c = Z.of_nat (length bs) ->
  Z.of_nat (length bs) < 65536 ->
  feed P bs c m =
  (false, length bs,
   mk_ctx QCA7K_READING_EOF (g_recv_buf_origin c)
          (g_recv_buf_ptr c + Z.of_nat (length bs)) 2 QCA7K_EOF (g_fl c),
   stored (g_recv_buf_ptr c) bs m).
Proof.
  revert c m. induction bs as [|b bs IH]; intros c m Hst Hne Hleft Hlen;
    [congruence|].
  destruct bs as [|b' bs].
  - cbn [feed length stored] in *.
    rewrite pass_frame_last by assumption. reflexivity.
  - rewrite feed_cons, pass_frame_more by (cbn [length] in *; lia || assumption).
    rewrite IH.
    + ctx_norm. cbn [stored].
      replace (g_recv_buf_ptr c + 1 + Z.of_nat (length (b' :: bs)))
        with (g_recv_buf_ptr c + Z.of_nat (length (b :: b' :: bs)))
        by (cbn [length]; lia).
      reflexivity.
    + destruct c; cbn in *; assumption.
    + discriminate.
    + destruct c; cbn [length] in *; ctx_norm; cbn in *; lia.
    + cbn [length] in *. lia.
Qed.

Lemma feed_eof (origin ptr fl : Z) (m : list (Z * Z)) :
  feed P [0x55; 0x55] (mk_ctx QCA7K_READING_EOF origin ptr 2 QCA7K_EOF fl) m =
  (true, 2%nat, mk_ctx QCA7K_OK origin origin 4 QCA7K_SOF 0, m).
Proof. do 2 feed_pass. reflexivity. Qed.

(** Bytes other than SOF leave a fresh context as it is. *)
Lemma feed_junk (junk : list Z) (data : Z) (m : list (Z * Z)) :
  Forall (fun b => b <> QCA7K_SOF) junk ->
  feed P junk (fresh_ctx data) m = (false, length junk, fresh_ctx data, m).
Proof.
  induction 1 as [|b junk Hb Hjunk IH]; [reflexivity|].
  cbn [feed length].
  rewrite pass_mismatch by (ctx_norm; auto).
  ctx_norm. change (mk_ctx QCA7K_READING_SOF data data 4 QCA7K_SOF 0)
    with (fresh_ctx data).
  now rewrite IH.
Qed.

Lemma feed_reading (bytes : list Z) (c : recv_ctx) (m : list (Z * Z)) :
  is_reading (g_state c) = true ->
  let '(d, _, c', _) := feed P bytes c m in
  g_recv_buf_origin c' = g_recv_buf_origin c /\
  (if d then g_state c' = QCA7K_OK else is_reading (g_state c') = true).
Proof.
  revert c m. induction bytes as [|b bs IH]; intros c m Hc; cbn [feed].
  - auto.
  - pose proof (pass_reading b c m Hc) as Hpass.
    destruct (pass_on P b c m) as [[d c'] m']. destruct Hpass as [Ho Hs].
    destruct d; [auto|].
    specialize (IH c' m' Hs).
    destruct (feed P bs c' m') as [[[d' k] c''] m''].
    destruct IH as [Ho' Hs']. split; [congruence | exact Hs'].
Qed.

Lemma feed_done_terminal (bytes : list Z) (c : recv_ctx) (m : list (Z * Z)) :
  let '(d, _, c', _) := feed P bytes c m in
  d = true -> g_state c' = QCA7K_OK \/ g_state c' = QCA7K_INTERNAL_ERROR.
Proof.
  revert c m. induction bytes as [|b bs IH]; intros c m; cbn [feed].
  - discriminate.
  - pose proof (pass_done_terminal b c m) as Hpass.
    destruct (pass_on P b c m) as [[d c'] m']. destruct d; [auto|].
    specialize (IH c' m').
    now destruct (feed P bs c' m') as [[[d' k] c''] m''].
Qed.

(** From a state that is not a reading state the first pass leaves the
    loop. *)
Lemma pass_not_reading (b : Z) (c : recv_ctx) (m : list (Z * Z)) :
  is_reading (g_state c) = false -> fst (fst (pass_on P b c m)) = true.
Proof.
  destruct c as [st origin ptr left expected fl].
  destruct st; cbn [is_reading g_state]; intros Hst; try discriminate Hst;
    reflexivity.
Qed.

End Scanning.

Lemma load_stored_below (bs : list Z) (p a : Z) (m : list (Z * Z)) :
  a < p -> load (stored p bs m) a = load m a.
Proof.
  revert p m. induction bs as [|b bs IH]; intros p m Ha; cbn [stored]; [reflexivity|].
  rewrite IH by lia. cbn [load].
  destruct (Z.eqb_spec p a); [lia | reflexivity].
Qed.

(** After [stored] the bytes are found where they were put. *)
Lemma load_stored (bs : list Z) (p : Z) (m : list (Z * Z)) (k : nat) :
  (k < length bs)%nat ->
  load (stored p bs m) (p + Z.of_nat k) = Some (nth k bs 0).
Proof.
  revert p m k. induction bs as [|b bs IH]; intros p m k Hk; cbn [length] in Hk;
    [lia|].
  cbn [stored]. destruct k as [|k].
  - rewrite Z.add_0_r, load_stored_below by lia.
    cbn [load nth]. now rewrite Z.eqb_refl.
  - replace (p + Z.of_nat (S k)) with (p + 1 + Z.of_nat k) by lia.
    rewrite IH by lia. reflexivity.
Qed.

Section Receiving.

Variable P : platform.

Lemma deliver_length (n : nat) (pending : list Z) : length (deliver n pending) = n.
Proof.
  revert pending. induction n as [|n IH]; intros pending; [reflexivity|].
  cbn [deliver]. destruct (chip_read pending) as [b rest]. cbn [length].
  now rewrite IH.
Qed.

Lemma entry_ctx_origin (data : Z) (c : recv_ctx) :
  g_recv_buf_origin (entry_ctx data c) = data.
Proof.
  unfold entry_ctx. destruct (needs_reset data c) eqn:Hreset; [reflexivity|].
  unfold needs_reset in Hreset.
  repeat (apply orb_false_elim in Hreset; destruct Hreset as [Hreset ?]).
  apply negb_false_iff, Z.eqb_eq in H1. now symmetry.
Qed.

Lemma entry_ctx_reading (data : Z) (c : recv_ctx) :
  is_parser_state (g_state c) = true ->
  is_reading (g_state (entry_ctx data c)) = true.
Proof.
  unfold entry_ctx, is_parser_state. intros Hc.
  destruct (needs_reset data c) eqn:Hreset; [reflexivity|].
  unfold needs_reset in Hreset.
  repeat (apply orb_false_elim in Hreset; destruct Hreset as [Hreset ?]).
  rewrite H, H0, !orb_false_r in Hc. exact Hc.
Qed.

Lemma entry_ctx_keeps (data : Z) (c : recv_ctx) :
  data <> NULL ->
  g_recv_buf_origin c = data ->
  is_reading (g_state c) = true ->
  entry_ctx data c = c.
Proof.
  intros Hdata Ho Hst. unfold entry_ctx, needs_reset. rewrite Ho.
  apply Z.eqb_neq in Hdata. rewrite Hdata, Z.eqb_refl.
  destruct (g_state c); try discriminate Hst; reflexivity.
Qed.

(** What a call that finds [n] > 0 bytes leaves behind, in terms of
    [feed]. *)
Lemma recv_outcome (data : Z) (w : world) (b0 b1 : Z) (rest : list Z) :
  16 <= size_bits P ->
  data <> NULL ->
  chip_read2 (chip w) = (b0, b1, rest) ->
  reg_value P b0 b1 <> 0 ->
  outcome (qca7k_recv P data w) =
  (let '(d, k, c', m') :=
     feed P (deliver (Z.to_nat (reg_value P b0 b1)) rest)
       (entry_ctx data (ctx w)) (mem w) in
   Some (g_state c', c', skipn k rest, m')).
Proof.
  intros H16 Hdata Hchip Hn.
  rewrite (recv_feed P H16 data w b0 b1 rest) by assumption.
  cbv zeta. destruct (feed P _ _ _) as [[[d k] c'] m']. reflexivity.
Qed.

Lemma recv_outcome_stream (data n : Z) (stream : list Z) (w : world) :
  16 <= size_bits P ->
  data <> NULL ->
  0 < n < 65536 ->
  outcome (qca7k_recv P data (with_chip (reg_bytes P n ++ stream) w)) =
  (let '(d, k, c', m') :=
     feed P (deliver (Z.to_nat n) stream) (entry_ctx data (ctx w)) (mem w) in
   Some (g_state c', c', skipn k stream, m')).
Proof.
  intros H16 Hdata Hn.
  destruct (reg_bytes_read P n stream) as (b0 & b1 & Hread & Hval); [lia|].
  rewrite (recv_outcome data _ b0 b1 stream) by (try assumption; rewrite ?Hval; lia).
  rewrite Hval. reflexivity.
Qed.

(** X14. With nothing to read (the register reads 0) [qca7k_recv] returns
    [QCA7K_EMPTY_READ_BUFFER] after the register query alone.  The value is
    only returned, not kept in [_g_state]: the context is what the entry
    test made of it, so a frame in progress in this buffer stays in
    progress. *)
Theorem recv_empty_keeps_context (data : Z) (w : world) (b0 b1 : Z) (rest : list Z) :
  data <> NULL ->
  chip_read2 (chip w) = (b0, b1, rest) ->
  reg_value P b0 b1 = 0 ->
  qca7k_recv P data w =
  Some (QCA7K_EMPTY_READ_BUFFER,
        after_bus rest (reg_read_txn QCA7K_REG_RDBUF_BYTE_AVA b0 b1)
          (with_ctx (if needs_reset data (ctx w) then fresh_ctx data else ctx w) w)).
Proof.
  intros Hdata Hchip Hv.
  rewrite recv_entry_ctx by exact Hdata.
  now rewrite (recv_available_empty P _ b0 b1 rest).
Qed.

(** X15. From any value [_g_state] is ever given, a call of [qca7k_recv]
    with a buffer never returns [QCA7K_INTERNAL_ERROR]; afterwards the
    context is bound to that buffer and [_g_state] is a reading state or
    [QCA7K_OK]. *)
Theorem recv_keeps_parser_states (data : Z) (w w' : world) (s : qca7k_state_t) :
  16 <= size_bits P ->
  data <> NULL ->
  is_parser_state (g_state (ctx w)) = true ->
  qca7k_recv P data w = Some (s, w') ->
  s <> QCA7K_INTERNAL_ERROR /\
  g_recv_buf_origin (ctx w') = data /\
  (is_reading (g_state (ctx w')) = true \/ g_state (ctx w') = QCA7K_OK).
Proof.
  intros H16 Hdata Hstate Hcall.
  pose proof (entry_ctx_reading data _ Hstate) as Hreading.
  pose proof (entry_ctx_origin data (ctx w)) as Horigin.
  destruct (chip_read2 (chip w)) as [[b0 b1] rest] eqn:Hchip.
  destruct (Z.eq_dec (reg_value P b0 b1) 0) as [Hzero|Hsome].
  - rewrite recv_entry_ctx in Hcall by exact Hdata.
    rewrite (recv_available_empty P _ b0 b1 rest) in Hcall by assumption.
    injection Hcall as <- <-. cbn [after_bus ctx with_ctx].
    split; [discriminate | split; [exact Horigin | left; exact Hreading]].
  - rewrite (recv_feed P H16 data w b0 b1 rest) in Hcall by assumption.
    cbv zeta in Hcall.
    pose proof (feed_reading P (deliver (Z.to_nat (reg_value P b0 b1)) rest)
                  _ (mem w) Hreading) as Hfeed.
    destruct (feed P _ _ _) as [[[d k] c'] m'].
    injection Hcall as <- <-. cbn [ctx]. destruct Hfeed as [Ho Hs].
    split; [| split].
    + destruct d; [rewrite Hs; discriminate|].
      intros Hie. rewrite Hie in Hs. discriminate Hs.
    + congruence.
    + destruct d; auto.
Qed.

(** X16. A call that finds [n] > 0 bytes to read adds exactly two
    transactions to the bus: the register query and one external read.  The
    external read takes at most [n] bytes, and exactly [n] unless the call
    returns [QCA7K_OK] or [QCA7K_INTERNAL_ERROR]. *)
Theorem recv_reads_at_most_available (data : Z) (w w' : world) (b0 b1 : Z)
                                     (rest : list Z) (s : qca7k_state_t) :
  16 <= size_bits P ->
  data <> NULL ->
  chip_read2 (chip w) = (b0, b1, rest) ->
  reg_value P b0 b1 <> 0 ->
  qca7k_recv P data w = Some (s, w') ->
  exists bytes : list Z,
    trace w' =
      trace w ++ reg_read_txn QCA7K_REG_RDBUF_BYTE_AVA b0 b1
      ++ external_read_txn bytes /\
    Z.of_nat (length bytes) <= reg_value P b0 b1 /\
    (s <> QCA7K_OK -> s <> QCA7K_INTERNAL_ERROR ->
     Z.of_nat (length bytes) = reg_value P b0 b1).
Proof.
  intros H16 Hdata Hchip Hn Hcall.
  destruct (chip_read2_range _ _ _ _ Hchip) as [H0 H1].
  pose proof (reg_value_range P b0 b1 H0 H1) as Hv.
  rewrite (recv_feed P H16 data w b0 b1 rest) in Hcall by assumption.
  cbv zeta in Hcall.
  set (bytes := deliver (Z.to_nat (reg_value P b0 b1)) rest) in *.
  pose proof (feed_count P bytes (entry_ctx data (ctx w)) (mem w)) as Hcount.
  pose proof (feed_done_terminal P bytes (entry_ctx data (ctx w)) (mem w)) as Hterm.
  destruct (feed P bytes _ _) as [[[d k] c'] m'].
  injection Hcall as <- <-. destruct Hcount as [Hle Hall].
  assert (Hbytes : length bytes = Z.to_nat (reg_value P b0 b1))
    by apply deliver_length.
  exists (firstn k bytes). cbn [trace].
  rewrite length_firstn, Nat.min_l by exact Hle.
  split; [reflexivity | split; [lia|]].
  intros Hok Hie. destruct d.
  - destruct (Hterm eq_refl); contradiction.
  - rewrite Hall by reflexivity. lia.
Qed.

Lemma frame_for_recv_bytes (payload : list Z) :
  Forall is_byte payload -> Forall is_byte (frame_for_recv payload).
Proof.
  intros Hp. unfold frame_for_recv.
  repeat (apply Forall_app; split);
    repeat (apply Forall_cons; [unfold is_byte; first [lia | apply hi8_range | apply lo8_range] |]);
    try apply Forall_nil; exact Hp.
Qed.

Lemma frame_for_recv_length (payload : list Z) :
  length (frame_for_recv payload) = (length payload + 10)%nat.
Proof. unfold frame_for_recv. rewrite !length_app. cbn [length]. lia. Qed.

(** A whole frame from a fresh context: the payload is stored from the
    buffer origin on and the loop is left with [QCA7K_OK], whatever
    follows. *)
Lemma feed_frame_for_recv (payload tail : list Z) (data : Z) (m : list (Z * Z)) :
  16 <= size_bits P ->
  Forall is_byte payload -> payload <> [] ->
  Z.of_nat (length payload) < 65536 ->
  feed P (frame_for_recv payload ++ tail) (fresh_ctx data) m =
  (true, length (frame_for_recv payload),
   mk_ctx QCA7K_OK data data 4 QCA7K_SOF 0, stored data payload m).
Proof.
  intros H16 Hbytes Hne Hlen.
  set (len := Z.of_nat (length payload)) in *.
  assert (Hfl : 256 * hi8 len + lo8 len = len)
    by (symmetry; apply bytes_of_u16; lia).
  replace (frame_for_recv payload ++ tail)
    with ([0xAA; 0xAA; 0xAA; 0xAA; hi8 len; lo8 len; 0x00; 0x00]
          ++ payload ++ [0x55; 0x55] ++ tail)
    by (unfold frame_for_recv; rewrite <- !app_assoc; reflexivity).
  rewrite feed_app, (feed_header P H16)
    by (unfold is_byte; first [apply hi8_range | apply lo8_range]).
  rewrite Hfl. cbv beta iota.
  rewrite feed_app, (feed_frame_bytes P H16) by (try assumption; reflexivity).
  cbv beta iota. cbn [g_recv_buf_origin g_recv_buf_ptr g_fl].
  rewrite feed_app, (feed_eof P H16). cbv beta iota.
  rewrite frame_for_recv_length.
  f_equal. f_equal. f_equal. lia.
Qed.

(** X17. A frame is received.  On a fresh context, bytes other than SOF
    followed by SOF, the length of a non-empty payload with its more
    significant byte first, two reserved zero bytes, the payload and two EOF
    bytes make [qca7k_recv] return [QCA7K_OK] in one call that may read at
    least that much: the payload is in the buffer from its origin on, the
    context is ready for the next frame and the bytes after the frame are
    left with the chip. *)
Theorem recv_receives_frame (data n : Z) (junk payload rest : list Z) (w : world) :
  16 <= size_bits P ->
  data <> NULL ->
  needs_reset data (ctx w) = true ->
  Forall is_byte junk ->
  Forall (fun b => b <> QCA7K_SOF) junk ->
  Forall is_byte payload ->
  payload <> [] ->
  Z.of_nat (length junk + length payload + 10) <= n < 65536 ->
  outcome (qca7k_recv P data
             (with_chip (reg_bytes P n ++ junk ++ frame_for_recv payload ++ rest) w)) =
    Some (QCA7K_OK, mk_ctx QCA7K_OK data data 4 QCA7K_SOF 0, rest,
          stored data payload (mem w)) /\
  forall k : nat,
    (k < length payload)%nat ->
    load (stored data payload (mem w)) (data + Z.of_nat k) = Some (nth k payload 0).
Proof.
  intros H16 Hdata Hreset Hjunk Hnosof Hpayload Hne Hn.
  split; [| intros k Hk; now apply load_stored].
  rewrite recv_outcome_stream by (try assumption; lia).
  unfold entry_ctx. rewrite Hreset.
  set (frame := frame_for_recv payload).
  assert (Hflen : length frame = (length payload + 10)%nat)
    by apply frame_for_recv_length.
  replace (Z.to_nat n)
    with (length (junk ++ frame) + (Z.to_nat n - length (junk ++ frame)))%nat
    by (rewrite length_app; lia).
  rewrite (app_assoc junk frame rest).
  rewrite deliver_app
    by (apply Forall_app; split; [exact Hjunk | now apply frame_for_recv_bytes]).
  rewrite <- (app_assoc junk frame).
  rewrite feed_app, (feed_junk P) by exact Hnosof. cbv beta iota.
  unfold frame. rewrite feed_frame_for_recv by (try assumption; lia).
  fold frame.
  rewrite <- length_app, skipn_app, skipn_all, Nat.sub_diag.
  reflexivity.
Qed.

(** X18. Bytes other than SOF are skipped: on a fresh context a call that
    reads only such bytes takes them all, stores nothing and returns
    [QCA7K_READING_SOF] with the context still fresh. *)
Theorem recv_skips_junk (data : Z) (junk rest : list Z) (w : world) :
  16 <= size_bits P ->
  data <> NULL ->
  needs_reset data (ctx w) = true ->
  Forall is_byte junk ->
  Forall (fun b => b <> QCA7K_SOF) junk ->
  junk <> [] ->
  Z.of_nat (length junk) < 65536 ->
  outcome (qca7k_recv P data
             (with_chip (reg_bytes P (Z.of_nat (length junk)) ++ junk ++ rest) w)) =
  Some (QCA7K_READING_SOF, mk_ctx QCA7K_READING_SOF data data 4 QCA7K_SOF 0,
        rest, mem w).
Proof.
  intros H16 Hdata Hreset Hjunk Hnosof Hne Hlen.
  assert (0 < Z.of_nat (length junk)) by (destruct junk; [congruence | cbn; lia]).
  rewrite recv_outcome_stream by (try assumption; lia).
  unfold entry_ctx. rewrite Hreset, Nat2Z.id.
  rewrite deliver_exact, (feed_junk P) by assumption.
  rewrite skipn_app, skipn_all, Nat.sub_diag. reflexivity.
Qed.

(** X19. The length field is read with its more significant byte first:
    after SOF and the two bytes [hi], [lo] the accumulated length is
    256 * hi + lo and the reserved stage begins. *)
Theorem recv_length_high_byte_first (data hi lo : Z) (rest : list Z) (w : world) :
  16 <= size_bits P ->
  data <> NULL ->
  needs_reset data (ctx w) = true ->
  is_byte hi -> is_byte lo ->
  outcome (qca7k_recv P data
             (with_chip (reg_bytes P 6 ++ [0xAA; 0xAA; 0xAA; 0xAA; hi; lo] ++ rest) w)) =
  Some (QCA7K_READING_RESERVED,
        mk_ctx QCA7K_READING_RESERVED data data 2 QCA7K_RESERVED (256 * hi + lo),
        rest, mem w).
Proof.
  intros H16 Hdata Hreset Hhi Hlo.
  rewrite recv_outcome_stream by (try assumption; lia).
  unfold entry_ctx. rewrite Hreset.
  change (Z.to_nat 6) with (length [0xAA; 0xAA; 0xAA; 0xAA; hi; lo]).
  rewrite deliver_exact
    by (repeat (apply Forall_cons; [first [assumption | unfold is_byte; lia] |]);
        apply Forall_nil).
  unfold is_byte in *.
  cbn [feed].
  do 3 (rewrite (pass_sentinel_more P H16)
          by (cbn; first [tauto | reflexivity | lia]); cbn -[Z.mul]).
  rewrite (pass_sof_last P H16) by reflexivity. cbn -[Z.mul].
  rewrite (pass_fl_more P H16) by (cbn; unfold is_byte; lia || reflexivity).
  cbn -[Z.mul].
  rewrite (pass_fl_last P H16) by (cbn -[Z.mul]; unfold is_byte; lia || reflexivity).
  cbn -[Z.mul].
  replace (256 * (256 * 0 + hi) + lo) with (256 * hi + lo) by lia.
  reflexivity.
Qed.

Lemma feed_goes_on_reading (bytes : list Z) (c : recv_ctx) (m : list (Z * Z)) :
  bytes <> [] ->
  fst (fst (fst (feed P bytes c m))) = false ->
  is_reading (g_state c) = true.
Proof.
  intros Hne Hfeed. destruct bytes as [|b bs]; [congruence|].
  destruct (is_reading (g_state c)) eqn:Hc; [reflexivity|].
  pose proof (pass_not_reading P b c m Hc) as Hpass.
  rewrite feed_cons in Hfeed.
  destruct (pass_on P b c m) as [[d c'] m']. cbn [fst] in Hpass. subst d.
  discriminate Hfeed.
Qed.

(** X20. A frame may arrive over several calls.  If a call with the same
    buffer reads [bytes1] and does not end in [QCA7K_OK] or
    [QCA7K_INTERNAL_ERROR], then the next call, reading [bytes2], returns
    the same state and leaves the same context, the same pending chip bytes
    and the same stores as a single call that reads [bytes1] followed by
    [bytes2]. *)
Theorem recv_resumes (data : Z) (bytes1 bytes2 rest : list Z)
                     (w w1 : world) (s1 : qca7k_state_t) :
  16 <= size_bits P ->
  data <> NULL ->
  Forall is_byte bytes1 -> Forall is_byte bytes2 ->
  bytes1 <> [] -> bytes2 <> [] ->
  Z.of_nat (length bytes1 + length bytes2) < 65536 ->
  qca7k_recv P data
    (with_chip (reg_bytes P (Z.of_nat (length bytes1)) ++ bytes1
                ++ reg_bytes P (Z.of_nat (length bytes2)) ++ bytes2 ++ rest) w) =
    Some (s1, w1) ->
  s1 <> QCA7K_OK -> s1 <> QCA7K_INTERNAL_ERROR ->
  outcome (qca7k_recv P data w1) =
  outcome (qca7k_recv P data
             (with_chip (reg_bytes P (Z.of_nat (length bytes1 + length bytes2))
                         ++ bytes1 ++ bytes2 ++ rest) w)).
Proof.
  intros H16 Hdata Hb1 Hb2 Hne1 Hne2 Hlen Hcall Hok Hie.
  assert (Hl1 : 0 < Z.of_nat (length bytes1))
    by (destruct bytes1; [congruence | cbn; lia]).
  assert (Hl2 : 0 < Z.of_nat (length bytes2))
    by (destruct bytes2; [congruence | cbn; lia]).
  set (after1 := reg_bytes P (Z.of_nat (length bytes2)) ++ bytes2 ++ rest) in *.
  (* the first call *)
  destruct (reg_bytes_read P (Z.of_nat (length bytes1)) (bytes1 ++ after1))
    as (b0 & b1 & Hread & Hval); [lia|].
  rewrite (recv_feed P H16 data _ b0 b1 (bytes1 ++ after1)) in Hcall
    by (try assumption; rewrite ?Hval; lia).
  cbv zeta in Hcall. rewrite Hval, Nat2Z.id, deliver_exact in Hcall by exact Hb1.
  cbn [with_chip ctx mem trace recv_v] in Hcall.
  pose proof (feed_count P bytes1 (entry_ctx data (ctx w)) (mem w)) as Hcount.
  pose proof (feed_done_terminal P bytes1 (entry_ctx data (ctx w)) (mem w)) as Hterm.
  pose proof (feed_goes_on_reading bytes1 (entry_ctx data (ctx w)) (mem w) Hne1)
    as Hstart.
  destruct (feed P bytes1 (entry_ctx data (ctx w)) (mem w))
    as [[[d1 k1] c1] m1] eqn:Hfeed1.
  injection Hcall as Hs1 Hw1. subst s1.
  destruct d1; [destruct (Hterm eq_refl); contradiction|].
  destruct Hcount as [_ Hall]. rewrite (Hall eq_refl) in Hw1.
  rewrite skipn_app, skipn_all, Nat.sub_diag in Hw1. cbn [skipn app] in Hw1.
  specialize (Hstart eq_refl).
  pose proof (feed_reading P bytes1 _ (mem w) Hstart) as Hinv.
  rewrite Hfeed1 in Hinv. destruct Hinv as [Ho1 Hr1].
  rewrite entry_ctx_origin in Ho1.
  (* the second call *)
  destruct (reg_bytes_read P (Z.of_nat (length bytes2)) (bytes2 ++ rest))
    as (b2 & b3 & Hread2 & Hval2); [lia|].
  rewrite (recv_outcome data w1 b2 b3 (bytes2 ++ rest))
    by (subst w1; cbn [chip]; try assumption; rewrite ?Hval2; lia).
  subst w1. cbn [ctx mem].
  rewrite (entry_ctx_keeps data c1) by assumption.
  rewrite Hval2, Nat2Z.id, deliver_exact by exact Hb2.
  (* the single call *)
  rewrite recv_outcome_stream by (try assumption; lia).
  rewrite Nat2Z.id, <- length_app.
  rewrite (app_assoc bytes1 bytes2 rest), deliver_exact
    by (apply Forall_app; now split).
  rewrite feed_app, Hfeed1. cbv beta iota.
  destruct (feed P bytes2 c1 m1) as [[[d2 k2] c2] m2].
  rewrite (Hall eq_refl), <- (app_assoc bytes1 bytes2 rest).
  rewrite (skipn_app (length bytes1 + k2) bytes1).
  rewrite (skipn_all2 bytes1) by lia.
  replace (length bytes1 + k2 - length bytes1)%nat with k2 by lia.
  reflexivity.
Qed.

End Receiving.

(** ** The further statements at concrete inputs *)

(** On a little-endian host the value 0x1234 written and read back is
    0x3412. *)
Lemma read_back_written_register_witness :
  fst (qca7k_read_register ilp32_le
         (with_chip
            (mosi_bytes (trace (snd (qca7k_write_register ilp32_le 0x1234 (boot [])))))
            (boot []))) =
  if host_le ilp32_le then 256 * (0x1234 mod 256) + 0x1234 / 256 else 0x1234.
Proof. apply (read_back_written_register ilp32_le 0x1234 (boot [])). lia. Defined.

(** Reading the signature register: command word 0xDA00. *)
Lemma command_word_in_range_witness :
  command_word ilp32_le true true QCA7K_REG_SIGNATURE =
  QCA7K_REG_SIGNATURE + 0x4000 + 0x8000.
Proof.
  apply (command_word_in_range ilp32_le true true QCA7K_REG_SIGNATURE).
  unfold QCA7K_REG_SIGNATURE. cbn. lia.
Defined.

(** On the AVR the register argument 0x8100 is cut down to 0x0100. *)
Lemma command_word_int16_witness :
  command_word avr false true 0x8100 = 0x8100 mod 2 ^ 14 + 0x4000 + 0.
Proof.
  apply (command_word_int16 avr false true 0x8100).
  - cbn. lia.
  - lia.
Defined.

(** The ten-byte payload with 100 bytes of space reported. *)
Lemma send_streams_padded_payload_witness :
  qca7k_send ilp32_le ten_bytes (Z.of_nat (length ten_bytes)) (boot [100; 0]) =
  (QCA7K_OK,
   after_bus []
     (reg_read_txn QCA7K_REG_WRBUF_SPC_AVA 100 0
      ++ reg_write_txn QCA7K_REG_BFR_SIZE (wire_size (Z.of_nat (length ten_bytes)))
      ++ [CS_low; MOSI 0x00; MOSI 0x00]
      ++ map MOSI ([0xAA; 0xAA; 0xAA; 0xAA; 0x00; 0x00]
                   ++ padded ten_bytes ++ [0x55; 0x55])
      ++ [CS_high]) (boot [100; 0])).
Proof.
  apply (send_streams_padded_payload ilp32_le ten_bytes (boot [100; 0]) 100 0 []).
  - unfold ten_bytes. repeat constructor; lia.
  - vm_compute. discriminate.
  - reflexivity.
  - vm_compute. discriminate.
Defined.

(** The largest frame with exactly the space it needs, 1532 bytes. *)
Lemma send_result_code_witness :
  fst (qca7k_send ilp32_le [] 1522 (boot [0xFC; 0x05])) =
  if QCA7K_FRAME_MAX <? 1522 then QCA7K_FRAME_OVERFLOW
  else if reg_value ilp32_le 0xFC 0x05 <? wire_size 1522
       then QCA7K_WRITE_BUFFER_INSUFFICIENT
       else QCA7K_OK.
Proof.
  apply (send_result_code ilp32_le [] 1522 (boot [0xFC; 0x05]) 0xFC 0x05 []).
  - lia.
  - reflexivity.
Defined.

(** Nothing to read while the length of a frame is pending. *)
Lemma recv_empty_keeps_context_witness :
  qca7k_recv ilp32_le 4096
    (with_ctx (mk_ctx QCA7K_READING_FL 4096 4096 2 QCA7K_SOF 0) (boot [0; 0])) =
  Some (QCA7K_EMPTY_READ_BUFFER,
        after_bus [] (reg_read_txn QCA7K_REG_RDBUF_BYTE_AVA 0 0)
          (with_ctx (mk_ctx QCA7K_READING_FL 4096 4096 2 QCA7K_SOF 0) (boot [0; 0]))).
Proof.
  apply (recv_empty_keeps_context ilp32_le 4096
           (with_ctx (mk_ctx QCA7K_READING_FL 4096 4096 2 QCA7K_SOF 0) (boot [0; 0]))
           0 0 []).
  - unfold NULL. lia.
  - reflexivity.
  - reflexivity.
Defined.

(** After power-on, a call that reads a whole one-byte frame. *)
Lemma recv_keeps_parser_states_witness :
  match qca7k_recv ilp32_le 4096
          (boot (reg_bytes ilp32_le 11 ++ frame_for_recv [9])) with
  | Some (s, w') =>
      s <> QCA7K_INTERNAL_ERROR /\
      g_recv_buf_origin (ctx w') = 4096 /\
      (is_reading (g_state (ctx w')) = true \/ g_state (ctx w') = QCA7K_OK)
  | None => False
  end.
Proof.
  destruct (qca7k_recv ilp32_le 4096
              (boot (reg_bytes ilp32_le 11 ++ frame_for_recv [9])))
    as [[s w']|] eqn:E.
  - apply (recv_keeps_parser_states ilp32_le 4096
             (boot (reg_bytes ilp32_le 11 ++ frame_for_recv [9])) w' s).
    + cbn. lia.
    + unfold NULL. lia.
    + reflexivity.
    + exact E.
  - vm_compute in E. discriminate E.
Defined.

(** Three bytes announced, none of them SOF: all three are read. *)
Lemma recv_reads_at_most_available_witness :
  match qca7k_recv ilp32_le 4096 (boot [3; 0; 1; 2; 3; 4]) with
  | Some (s, w') =>
      exists bytes : list Z,
        trace w' =
          trace (boot [3; 0; 1; 2; 3; 4])
          ++ reg_read_txn QCA7K_REG_RDBUF_BYTE_AVA 3 0
          ++ external_read_txn bytes /\
        Z.of_nat (length bytes) <= reg_value ilp32_le 3 0 /\
        (s <> QCA7K_OK -> s <> QCA7K_INTERNAL_ERROR ->
         Z.of_nat (length bytes) = reg_value ilp32_le 3 0)
  | None => False
  end.
Proof.
  destruct (qca7k_recv ilp32_le 4096 (boot [3; 0; 1; 2; 3; 4]))
    as [[s w']|] eqn:E.
  - apply (recv_reads_at_most_available ilp32_le 4096
             (boot [3; 0; 1; 2; 3; 4]) w' 3 0 [1; 2; 3; 4] s).
    + cbn. lia.
    + unfold NULL. lia.
    + reflexivity.
    + vm_compute. discriminate.
    + exact E.
  - vm_compute in E. discriminate E.
Defined.

(** Two stray bytes, the frame carrying 7 8 9, and one byte after it. *)
Lemma recv_receives_frame_witness :
  outcome (qca7k_recv ilp32_le 4096
             (with_chip (reg_bytes ilp32_le 20 ++ [1; 2]
                         ++ frame_for_recv [7; 8; 9] ++ [0x33]) (boot []))) =
    Some (QCA7K_OK, mk_ctx QCA7K_OK 4096 4096 4 QCA7K_SOF 0, [0x33],
          stored 4096 [7; 8; 9] (mem (boot []))) /\
  forall k : nat,
    (k < length [7; 8; 9])%nat ->
    load (stored 4096 [7; 8; 9] (mem (boot []))) (4096 + Z.of_nat k)
    = Some (nth k [7; 8; 9] 0).
Proof.
  apply (recv_receives_frame ilp32_le 4096 20 [1; 2] [7; 8; 9] [0x33] (boot [])).
  - cbn. lia.
  - unfold NULL. lia.
  - reflexivity.
  - repeat constructor; lia.
  - repeat constructor; unfold QCA7K_SOF; lia.
  - repeat constructor; lia.
  - discriminate.
  - cbn. lia.
Defined.

(** Three stray bytes; the SOF byte after them is not read. *)
Lemma recv_skips_junk_witness :
  outcome (qca7k_recv ilp32_le 4096
             (with_chip (reg_bytes ilp32_le (Z.of_nat (length [1; 2; 3]))
                         ++ [1; 2; 3] ++ [0xAA]) (boot []))) =
  Some (QCA7K_READING_SOF, mk_ctx QCA7K_READING_SOF 4096 4096 4 QCA7K_SOF 0,
        [0xAA], mem (boot [])).
Proof.
  apply (recv_skips_junk ilp32_le 4096 [1; 2; 3] [0xAA] (boot [])).
  - cbn. lia.
  - unfold NULL. lia.
  - reflexivity.
  - repeat constructor; lia.
  - repeat constructor; unfold QCA7K_SOF; lia.
  - discriminate.
  - cbn. lia.
Defined.

(** The length bytes 05 F3 are read as 0x05F3 = 1523. *)
Lemma recv_length_high_byte_first_witness :
  outcome (qca7k_recv ilp32_le 4096
             (with_chip (reg_bytes ilp32_le 6
                         ++ [0xAA; 0xAA; 0xAA; 0xAA; 0x05; 0xF3] ++ []) (boot []))) =
  Some (QCA7K_READING_RESERVED,
        mk_ctx QCA7K_READING_RESERVED 4096 4096 2 QCA7K_RESERVED (256 * 0x05 + 0xF3),
        [], mem (boot [])).
Proof.
  apply (recv_length_high_byte_first ilp32_le 4096 0x05 0xF3 [] (boot [])).
  - cbn. lia.
  - unfold NULL. lia.
  - reflexivity.
  - unfold is_byte. lia.
  - unfold is_byte. lia.
Defined.

(** A one-byte frame split after its length field. *)
Lemma recv_resumes_witness :
  match qca7k_recv ilp32_le 4096
          (with_chip
             (reg_bytes ilp32_le (Z.of_nat (length [0xAA; 0xAA; 0xAA; 0xAA; 0x00; 0x01]))
              ++ [0xAA; 0xAA; 0xAA; 0xAA; 0x00; 0x01]
              ++ reg_bytes ilp32_le (Z.of_nat (length [0x00; 0x00; 0x09; 0x55; 0x55]))
              ++ [0x00; 0x00; 0x09; 0x55; 0x55] ++ []) (boot [])) with
  | Some (s1, w1) =>
      outcome (qca7k_recv ilp32_le 4096 w1) =
      outcome (qca7k_recv ilp32_le 4096
                 (with_chip
                    (reg_bytes ilp32_le
                       (Z.of_nat (length [0xAA; 0xAA; 0xAA; 0xAA; 0x00; 0x01]
                                  + length [0x00; 0x00; 0x09; 0x55; 0x55]))
                     ++ [0xAA; 0xAA; 0xAA; 0xAA; 0x00; 0x01]
                     ++ [0x00; 0x00; 0x09; 0x55; 0x55] ++ []) (boot [])))
  | None => False
  end.
Proof.
  destruct (qca7k_recv ilp32_le 4096
              (with_chip
                 (reg_bytes ilp32_le (Z.of_nat (length [0xAA; 0xAA; 0xAA; 0xAA; 0x00; 0x01]))
                  ++ [0xAA; 0xAA; 0xAA; 0xAA; 0x00; 0x01]
                  ++ reg_bytes ilp32_le (Z.of_nat (length [0x00; 0x00; 0x09; 0x55; 0x55]))
                  ++ [0x00; 0x00; 0x09; 0x55; 0x55] ++ []) (boot [])))
    as [[s1 w1]|] eqn:E.
  - assert (Hs1 : s1 = QCA7K_READING_RESERVED) by (vm_compute in E; congruence).
    apply (recv_resumes ilp32_le 4096 [0xAA; 0xAA; 0xAA; 0xAA; 0x00; 0x01]
             [0x00; 0x00; 0x09; 0x55; 0x55] [] (boot []) w1 s1).
    + cbn. lia.
    + unfold NULL. lia.
    + repeat constructor; lia.
    + repeat constructor; lia.
    + discriminate.
    + discriminate.
    + cbn. lia.
    + exact E.
    + rewrite Hs1. discriminate.
    + rewrite Hs1. discriminate.
  - vm_compute in E. discriminate E.
Defined.
